(** * Stereo pairing server: frame pairing, triangulation and broadcast

    A shallow embedding of the WebSocket stereo server
    ([src/unnamed/part_000]): the per-role frame buffers and
    [attemptStereoPair], the reconstruction pipeline [processStereoPair]
    (centres, index correspondence, triangulation, padding, broadcast) and
    the per-connection message handler.

    Numbers.  JavaScript numbers are IEEE 754 binary64 values; the
    triangulation arithmetic is embedded with Rocq's primitive floats,
    which are the same binary64 values with the same rounding.  Frame
    timestamps and sequence numbers are integers in the wire format; they
    are embedded as [Z] (binary64 arithmetic is exact on integers below
    [2^53]). *)

From Stdlib Require Import String ZArith List Bool Lia.
From Stdlib Require Import Floats.
Import ListNotations.

Local Open Scope Z_scope.

(* ===================================================================== *)
(** ** Numbers, points and calibration *)
(* ===================================================================== *)

Module Num.

(** [d <= 0] and [0 < d] of the source, on binary64 values. *)
Definition le0 (d : float) : bool := PrimFloat.leb d 0%float.
Definition gt0 (d : float) : bool := PrimFloat.ltb 0%float d.

End Num.

(** Detection boxes, 2D centres and 3D positions.  The source names the
    fields [x], [y], [width], [height] on each of these objects; the prefix
    tells the three records apart. *)
Record Rect := { rect_x : float; rect_y : float; rect_width : float; rect_height : float }.
Record Point2 := { pt_x : float; pt_y : float }.
Record Position3D := { pos_x : float; pos_y : float; pos_z : float }.

(** A [cv.Mat] of doubles, row by row, read with [.at(r, c)]. *)
Definition Matrix := list (list float).

Definition mat_at (m : Matrix) (r c : nat) : float :=
  nth c (nth r m []) PrimFloat.nan.

(** [stereo_calib.yaml] once loaded (lines 13-37). [T] is the one-row
    matrix [new cv.Mat([stereoCalibYaml.T])]. *)
Record Calibration := {
  cameraMatrix1 : Matrix;
  distCoeffs1 : Matrix;
  cameraMatrix2 : Matrix;
  distCoeffs2 : Matrix;
  R : Matrix;
  T : Matrix;
  imageSize : Z * Z
}.

(** What [cv.stereoRectify] returns (line 38). *)
Record Rectification := { R1 : Matrix; R2 : Matrix; P1 : Matrix; P2 : Matrix; Q : Matrix }.

Inductive Camera := LeftCam | RightCam.

(* ===================================================================== *)
(** ** The platform: JSON and the opencv4nodejs binding *)
(* ===================================================================== *)

(** An inbound message after [JSON.parse].  A field that is absent or not a
    string compares unequal to every string literal, as any other string
    does.  Two inputs are outside this record: the parsed value [null],
    on which [msg.type] throws (line 95), and a frame whose [img] is not a
    string, on which [Buffer.from] may throw (line 107).  Both throws come
    before any change of state, and neither is inside a [try]. *)
Record Msg := {
  msg_type : string;
  msg_role : string;
  msg_seq : Z;
  msg_timestamp : Z;
  msg_img : string
}.

(** The delegated primitives.  [None] is a thrown exception. *)
Class Platform := {
  Image : Type;
  RectifyMap : Type;
  JSON_parse : string -> option Msg;
  imdecode : string -> option Image;
  bgrToGray : Image -> option Image;
  stereoRectify : Matrix -> Matrix -> Matrix -> Matrix -> Z * Z -> Matrix -> Matrix ->
                  option Rectification;
  initUndistortRectifyMap : Matrix -> Matrix -> Matrix -> Matrix -> Z * Z -> option RectifyMap;
  remap : Image -> RectifyMap -> option Image;
  stereoBM_compute : Image -> Image -> option Image;
  hog_detectMultiScale : Image -> option (list Rect)
}.

(* ===================================================================== *)
(** ** Effects: a trace of observable calls, and exceptions *)
(* ===================================================================== *)

Definition Socket := nat.

(** The outbound message before [JSON.stringify]. *)
Record Payload := { payload_type : string; payload_data : list Position3D }.

Inductive Event :=
| CallStereoRectify
| CallInitUndistortRectifyMap (cam : Camera)
| Sent (cli : Socket) (payload : Payload)
| ConsoleLog
| ConsoleWarn
| ConsoleError.

Inductive Outcome (A : Type) :=
| Returns (a : A)
| Throws.
Arguments Returns {A} a.
Arguments Throws {A}.

(** A computation: the events it produced, in order, and how it ended. *)
Definition Eff (A : Type) : Type := list Event * Outcome A.

Definition ret {A} (a : A) : Eff A := ([], Returns a).

Definition bind {A B} (m : Eff A) (f : A -> Eff B) : Eff B :=
  match m with
  | (tr, Returns a) => let '(tr', r) := f a in (tr ++ tr', r)
  | (tr, Throws) => (tr, Throws)
  end.

Definition throw {A} : Eff A := ([], Throws).

Definition emit (e : Event) : Eff unit := ([e], Returns tt).

(** [try { m } catch (err) { h }] *)
Definition try_catch {A} (m : Eff A) (h : Eff A) : Eff A :=
  match m with
  | (tr, Throws) => let '(tr', r) := h in (tr ++ tr', r)
  | (tr, Returns a) => (tr, Returns a)
  end.

(** A delegated call that may throw. *)
Definition call {A} (o : option A) : Eff A :=
  match o with
  | Some a => ret a
  | None => throw
  end.

Definition trace {A} (m : Eff A) : list Event := fst m.
Definition outcome {A} (m : Eff A) : Outcome A := snd m.

Declare Scope eff_scope.
Delimit Scope eff_scope with eff.
Notation "x <- c1 ;; c2" := (bind c1 (fun x => c2))
  (at level 61, c1 at next level, right associativity) : eff_scope.
Notation "c1 ;; c2" := (bind c1 (fun _ => c2))
  (at level 61, right associativity) : eff_scope.

(* ===================================================================== *)
(** ** Frame buffers and the pairing matcher *)
(* ===================================================================== *)

(** [Number.MAX_SAFE_INTEGER] *)
Definition MAX_SAFE_INTEGER : Z := 2 ^ 53 - 1.

(** [Array.prototype.shift]: the array without its first element. *)
Definition shift {A} (l : list A) : list A := tl l.

(** The list without the element at index [n]. *)
Definition remove_at {A} (n : nat) (l : list A) : list A :=
  firstn n l ++ skipn (S n) l.

(** [l.splice(start, 1)]: the removed elements and what is left of [l].
    A negative [start] counts from the end; a [start] past the end removes
    nothing. *)
Definition splice1 {A} (start : Z) (l : list A) : list A * list A :=
  let len := Z.of_nat (length l) in
  let s := if start <? 0 then Z.max (len + start) 0 else Z.min start len in
  let n := Z.to_nat s in
  (firstn 1 (skipn n l), remove_at n l).

Section Pairing.
Context {platform : Platform}.

(** A buffered frame: [{ seq, timestamp, matColor }] (line 61). *)
Record FrameRecord := { seq : Z; timestamp : Z; matColor : Image }.

(** [frameBuffers = { front: [], back: [] }] *)
Record FrameBuffers := { front : list FrameRecord; back : list FrameRecord }.

(** [|b.timestamp - frontFrame.timestamp|] *)
Definition dt_of (frontFrame b : FrameRecord) : Z :=
  Z.abs (timestamp b - timestamp frontFrame).

(** The scan of lines 144-150, from index [i] on, with the running
    [bestIdx] and [smallestDt]. *)
Fixpoint scan (frontFrame : FrameRecord) (bs : list FrameRecord) (i : Z)
         (bestIdx smallestDt : Z) : Z * Z :=
  match bs with
  | [] => (bestIdx, smallestDt)
  | b :: bs' =>
      let dt := dt_of frontFrame b in
      if dt <? smallestDt
      then scan frontFrame bs' (i + 1) i dt
      else scan frontFrame bs' (i + 1) bestIdx smallestDt
  end.

(** What one invocation of the matcher hands over. *)
Inductive Handoff :=
| NoCall                                  (* returned before line 163 *)
| Call (frontFrame backFrame : FrameRecord) (* processStereoPair(frontFrame.matColor, backFrame.matColor) *)
| TypeError.                              (* backFrame is undefined *)

(** [attemptStereoPair] (lines 137-164): the buffers it leaves and the
    call it makes. *)
Definition attemptStereoPair (fb : FrameBuffers) : FrameBuffers * Handoff :=
  match front fb, back fb with
  | [], _ => (fb, NoCall)
  | _, [] => (fb, NoCall)
  | frontFrame :: _, _ =>
      let '(bestIdx, smallestDt) := scan frontFrame (back fb) 0 (-1) MAX_SAFE_INTEGER in
      if smallestDt >? 200 then
        ({| front := shift (front fb); back := back fb |}, NoCall)
      else
        let '(removed, back') := splice1 bestIdx (back fb) in
        let fb' := {| front := shift (front fb); back := back' |} in
        match removed with
        | backFrame :: _ => (fb', Call frontFrame backFrame)
        | [] => (fb', TypeError)
        end
  end.

(** [b], at index [k] of [bs], is the frame of [bs] closest in time to
    [frontFrame], and the first such in scan order. *)
Definition first_closest (frontFrame : FrameRecord) (bs : list FrameRecord)
           (k : nat) (b : FrameRecord) : Prop :=
  nth_error bs k = Some b /\
  (forall b', In b' bs -> dt_of frontFrame b <= dt_of frontFrame b') /\
  (forall j b', (j < k)%nat -> nth_error bs j = Some b' ->
                dt_of frontFrame b < dt_of frontFrame b').

End Pairing.

(* ===================================================================== *)
(** ** Triangulation *)
(* ===================================================================== *)

Section Triangulation.
Local Open Scope float_scope.

Variable cal : Calibration.

(** The marker [{ x: 0, y: 0, z: -1 }]. *)
Definition sentinel : Position3D := {| pos_x := 0; pos_y := 0; pos_z := -1 |}.

(** Box to centre (lines 199-206). *)
Definition center (r : Rect) : Point2 :=
  {| pt_x := rect_x r + rect_width r / 2; pt_y := rect_y r + rect_height r / 2 |}.

Definition centers (found : list Rect) : list Point2 := map center found.

(** The body of the loop of lines 212-236 for one pair of centres. *)
Definition triangulate (ptL ptR : Point2) : Position3D :=
  let d := pt_x ptL - pt_x ptR in
  if Num.le0 d then sentinel
  else
    let fx := mat_at (cameraMatrix1 cal) 0 0 in
    let fy := mat_at (cameraMatrix1 cal) 1 1 in
    let cx := mat_at (cameraMatrix1 cal) 0 2 in
    let cy := mat_at (cameraMatrix1 cal) 1 2 in
    let B := abs (mat_at (T cal) 0 0) in
    let Z := fx * B / d in
    let X := (pt_x ptL - cx) * Z / fx in
    let Y := (pt_y ptL - cy) * Z / fy in
    {| pos_x := X; pos_y := Y; pos_z := Z |}.

(** [Math.min(centersL.length, centersR.length, 6)] *)
Definition numDetected (centersL centersR : list Point2) : nat :=
  Nat.min (Nat.min (List.length centersL) (List.length centersR)) 6.

(** [for (let i = ...; i < numDetected; i++)] with [todo] iterations left.
    Reading [centersL[i]] or [centersR[i]] past the end gives [undefined],
    whose [.x] throws: [None]. *)
Fixpoint triangulate_loop (centersL centersR : list Point2) (todo i : nat)
         (result3D : list Position3D) : option (list Position3D) :=
  match todo with
  | O => Some result3D
  | S todo' =>
      match nth_error centersL i, nth_error centersR i with
      | Some ptL, Some ptR =>
          triangulate_loop centersL centersR todo' (S i) (result3D ++ [triangulate ptL ptR])
      | _, _ => None
      end
  end.

(** [for (let k = result3D.length; k < 6; k++) result3D.push(sentinel)]
    with [todo] iterations left (lines 239-241). *)
Fixpoint pad_loop (todo : nat) (result3D : list Position3D) : list Position3D :=
  match todo with
  | O => result3D
  | S todo' => pad_loop todo' (result3D ++ [sentinel])
  end.

(** Steps (E) and the padding: [result3D] as it stands at line 242. *)
Definition result3D_of (centersL centersR : list Point2) : option (list Position3D) :=
  match triangulate_loop centersL centersR (numDetected centersL centersR) 0 [] with
  | Some result3D => Some (pad_loop (6 - List.length result3D) result3D)
  | None => None
  end.

(** The entries the loop produces, in the order it produces them: the
    first [numDetected] index-paired centres, triangulated. *)
Definition real_entries (centersL centersR : list Point2) : list Position3D :=
  map (fun p => triangulate (fst p) (snd p))
      (firstn (numDetected centersL centersR) (combine centersL centersR)).

End Triangulation.

(* ===================================================================== *)
(** ** The connection registry and the sockets *)
(* ===================================================================== *)

(** [clients = new Map()]: socket to role, in insertion order. *)
Definition Clients := list (Socket * string).

(** [clients.set(k, v)]: an existing key keeps its place. *)
Fixpoint map_set (k : Socket) (v : string) (m : Clients) : Clients :=
  match m with
  | [] => [(k, v)]
  | (k', v') :: m' => if Nat.eqb k k' then (k, v) :: m' else (k', v') :: map_set k v m'
  end.

(** [clients.delete(k)] *)
Fixpoint map_delete (k : Socket) (m : Clients) : Clients :=
  match m with
  | [] => []
  | (k', v') :: m' => if Nat.eqb k k' then m' else (k', v') :: map_delete k m'
  end.

(** [ws.OPEN] *)
Definition ws_OPEN : nat := 1.

(** The sockets as the server finds them during one event: their
    [readyState], and whether [send] on them throws. *)
Record Net := { readyState : Socket -> nat; send_throws : Socket -> bool }.

(** [cli.send(payload)] *)
Definition send (net : Net) (cli : Socket) (payload : Payload) : Eff unit :=
  if send_throws net cli then throw else emit (Sent cli payload).

Local Open Scope eff_scope.

(** The loop of lines 245-249 over [clients.entries()]. *)
Fixpoint broadcast (net : Net) (payload : Payload) (entries : Clients) : Eff unit :=
  match entries with
  | [] => ret tt
  | (cli, r) :: rest =>
      (if Nat.eqb (readyState net cli) ws_OPEN then send net cli payload else ret tt) ;;
      broadcast net payload rest
  end.

(* ===================================================================== *)
(** ** The reconstruction pipeline and the message handler *)
(* ===================================================================== *)

Section Server.
Context {platform : Platform}.

(** The process-wide state: the constants of lines 13-42 and the mutable
    [frameBuffers] and [clients]. *)
Record Server := {
  calib : Calibration;
  rectification : Rectification;
  frameBuffers : FrameBuffers;
  clients : Clients
}.

Definition set_frameBuffers (srv : Server) (fb : FrameBuffers) : Server :=
  {| calib := calib srv; rectification := rectification srv;
     frameBuffers := fb; clients := clients srv |}.

Definition set_clients (srv : Server) (c : Clients) : Server :=
  {| calib := calib srv; rectification := rectification srv;
     frameBuffers := frameBuffers srv; clients := c |}.

(** Lines 13-42: load the calibration, call [cv.stereoRectify] once.  A
    throw here is fatal: the server never starts. *)
Definition startup (cal : Calibration) : Eff Server :=
  emit CallStereoRectify ;;
  rect <- call (stereoRectify (cameraMatrix1 cal) (distCoeffs1 cal)
                              (cameraMatrix2 cal) (distCoeffs2 cal)
                              (imageSize cal) (R cal) (T cal)) ;;
  ret {| calib := cal; rectification := rect;
         frameBuffers := {| front := []; back := [] |}; clients := [] |}.

(** [cv.initUndistortRectifyMap(...)], recorded in the trace. *)
Definition initMap (cam : Camera) (srv : Server) : Eff RectifyMap :=
  emit (CallInitUndistortRectifyMap cam) ;;
  match cam with
  | LeftCam =>
      call (initUndistortRectifyMap (cameraMatrix1 (calib srv)) (distCoeffs1 (calib srv))
              (R1 (rectification srv)) (P1 (rectification srv)) (imageSize (calib srv)))
  | RightCam =>
      call (initUndistortRectifyMap (cameraMatrix2 (calib srv)) (distCoeffs2 (calib srv))
              (R2 (rectification srv)) (P2 (rectification srv)) (imageSize (calib srv)))
  end.

(** Steps (A)-(D) of the [try] block (lines 172-206): the two lists of
    centres. *)
Definition detect_centers (srv : Server) (imgLeftColor imgRightColor : Image)
  : Eff (list Point2 * list Point2) :=
  grayL <- call (bgrToGray imgLeftColor) ;;
  grayR <- call (bgrToGray imgRightColor) ;;
  mapL <- initMap LeftCam srv ;;
  mapR <- initMap RightCam srv ;;
  rectL <- call (remap grayL mapL) ;;
  rectR <- call (remap grayR mapR) ;;
  disp <- call (stereoBM_compute rectL rectR) ;;
  rectLColor <- call (remap imgLeftColor mapL) ;;
  rectRColor <- call (remap imgRightColor mapR) ;;
  foundL <- call (hog_detectMultiScale rectLColor) ;;
  foundR <- call (hog_detectMultiScale rectRColor) ;;
  ret (centers foundL, centers foundR).

(** The message of line 244. *)
Definition payload_of (result3D : list Position3D) : Payload :=
  {| payload_type := "3d_positions"; payload_data := result3D |}.

(** The [try] block of [processStereoPair] (lines 171-249). *)
Definition processStereoPair_try (net : Net) (srv : Server)
           (imgLeftColor imgRightColor : Image) : Eff unit :=
  cs <- detect_centers srv imgLeftColor imgRightColor ;;
  result3D <- call (result3D_of (calib srv) (fst cs) (snd cs)) ;;
  broadcast net (payload_of result3D) (clients srv).

(** [processStereoPair] (lines 169-253).  The function is [async] but
    awaits nothing, so it runs to its end inside the caller. *)
Definition processStereoPair (net : Net) (srv : Server)
           (imgLeftColor imgRightColor : Image) : Eff unit :=
  try_catch (processStereoPair_try net srv imgLeftColor imgRightColor)
            (emit ConsoleError).

(** [frameBuffers[myRole].push(fr)] under the guard of line 105. *)
Definition push_frame (myRole : option string) (fr : FrameRecord) (fb : FrameBuffers)
  : option FrameBuffers :=
  match myRole with
  | Some r =>
      if String.eqb r "front" then Some {| front := front fb ++ [fr]; back := back fb |}
      else if String.eqb r "back" then Some {| front := front fb; back := back fb ++ [fr] |}
      else None
  | None => None
  end.

(** [myRole === 'front' || myRole === 'back'] *)
Definition is_camera_role (myRole : option string) : bool :=
  match myRole with
  | Some r => String.eqb r "front" || String.eqb r "back"
  | None => false
  end.

(** The ['message'] handler of one connection (lines 84-126), on the
    messages [Msg] can hold.  [myRole] is the connection's own variable: it
    goes in and comes out.  An exception that leaves the handler is
    [Throws]. *)
Definition on_message (net : Net) (socket : Socket) (myRole : option string)
           (data : string) (srv : Server) : Eff (option string * Server) :=
  match JSON_parse data with
  | None => emit ConsoleError ;; ret (myRole, srv)
  | Some msg =>
      if String.eqb (msg_type msg) "role" then
        if String.eqb (msg_role msg) "front" || String.eqb (msg_role msg) "back" then
          emit ConsoleLog ;;
          ret (Some (msg_role msg),
               set_clients srv (map_set socket (msg_role msg) (clients srv)))
        else ret (myRole, srv)
      else if String.eqb (msg_type msg) "frame" && is_camera_role myRole then
        match imdecode (msg_img msg) with
        | None => emit ConsoleWarn ;; ret (myRole, srv)
        | Some m =>
            let fr := {| seq := msg_seq msg; timestamp := msg_timestamp msg; matColor := m |} in
            match push_frame myRole fr (frameBuffers srv) with
            | None => throw
            | Some fb =>
                let '(fb', handoff) := attemptStereoPair fb in
                let srv' := set_frameBuffers srv fb' in
                match handoff with
                | NoCall => ret (myRole, srv')
                | Call frontFrame backFrame =>
                    processStereoPair net srv' (matColor frontFrame) (matColor backFrame) ;;
                    ret (myRole, srv')
                | TypeError => throw
                end
            end
        end
      else ret (myRole, srv)
  end.

(** The ['close'] handler (lines 128-131). *)
Definition on_close (socket : Socket) (srv : Server) : Eff Server :=
  emit ConsoleLog ;;
  ret (set_clients srv (map_delete socket (clients srv))).

(** *** The event loop *)

Inductive Inbound :=
| Message (socket : Socket) (data : string)
| Close (socket : Socket).

(** The [myRole] variable of every connection, [null] until set. *)
Definition Roles := Socket -> option string.

Definition set_role (roles : Roles) (socket : Socket) (r : option string) : Roles :=
  fun s => if Nat.eqb s socket then r else roles s.

Definition step (net : Net) (st : Roles * Server) (ev : Inbound) : Eff (Roles * Server) :=
  let '(roles, srv) := st in
  match ev with
  | Message socket data =>
      r <- on_message net socket (roles socket) data srv ;;
      ret (set_role roles socket (fst r), snd r)
  | Close socket =>
      srv' <- on_close socket srv ;;
      ret (roles, srv')
  end.

Fixpoint run_from (net : Net) (st : Roles * Server) (evs : list Inbound)
  : Eff (Roles * Server) :=
  match evs with
  | [] => ret st
  | ev :: evs' => st' <- step net st ev ;; run_from net st' evs'
  end.

(** The server from its start through the inbound events [evs]; the
    [console.log] is that of line 76. *)
Definition run (net : Net) (cal : Calibration) (evs : list Inbound) : Eff (Roles * Server) :=
  srv <- startup cal ;;
  emit ConsoleLog ;;
  run_from net (fun _ => None, srv) evs.

End Server.

(* ===================================================================== *)
(** ** Reading a trace *)
(* ===================================================================== *)

Definition is_sent (e : Event) : bool :=
  match e with Sent _ _ => true | _ => false end.

Definition is_initMap (cam : Camera) (e : Event) : bool :=
  match e, cam with
  | CallInitUndistortRectifyMap LeftCam, LeftCam => true
  | CallInitUndistortRectifyMap RightCam, RightCam => true
  | _, _ => false
  end.

Definition is_stereoRectify (e : Event) : bool :=
  match e with CallStereoRectify => true | _ => false end.

(** How many events of [tr] satisfy [p]. *)
Definition count (p : Event -> bool) (tr : list Event) : nat :=
  List.length (filter p tr).

(** The sockets something was sent to, in order. *)
Definition recipients (tr : list Event) : list Socket :=
  flat_map (fun e => match e with Sent cli _ => [cli] | _ => [] end) tr.

(** [cli.readyState === ws.OPEN] *)
Definition is_open (net : Net) (cli : Socket) : bool :=
  Nat.eqb (readyState net cli) ws_OPEN.

(** The sockets [payload] was sent to, in order. *)
Definition deliveries (payload : Payload) (clis : list Socket) : list Event :=
  map (fun cli => Sent cli payload) clis.

(* ===================================================================== *)
(** ** Reading the registry *)
(* ===================================================================== *)

(** [clients.get(k)] *)
Fixpoint map_get (k : Socket) (m : Clients) : option string :=
  match m with
  | [] => None
  | (k', v') :: m' => if Nat.eqb k k' then Some v' else map_get k m'
  end.

(** The two roles a connection can register. *)
Definition valid_role (r : string) : Prop := r = "front"%string \/ r = "back"%string.

Section Registry.
Context {platform : Platform}.

(** The registry as the event loop keeps it: one entry per socket, every
    entry a camera role, and every entry the [myRole] of its connection. *)
Definition registry_ok (roles : Roles) (srv : Server) : Prop :=
  NoDup (map fst (clients srv)) /\
  forall s r, In (s, r) (clients srv) -> valid_role r /\ roles s = Some r.

(** The frame a message becomes once decoded (lines 117-121). *)
Definition frame_of (msg : Msg) (m : Image) : FrameRecord :=
  {| seq := msg_seq msg; timestamp := msg_timestamp msg; matColor := m |}.

End Registry.

Section Detection.
Context {platform : Platform}.

(** Steps (B)-(D) of the [try] block once both maps are there (lines
    184-206): remap the two grey images, compute the disparity, remap the
    two colour images, detect, take the centres. *)
Definition rectified_detection (grayL grayR imgLeftColor imgRightColor : Image)
           (mapL mapR : RectifyMap) : Eff (list Point2 * list Point2) :=
  rectL <- call (remap grayL mapL) ;;
  rectR <- call (remap grayR mapR) ;;
  disp <- call (stereoBM_compute rectL rectR) ;;
  rectLColor <- call (remap imgLeftColor mapL) ;;
  rectRColor <- call (remap imgRightColor mapR) ;;
  foundL <- call (hog_detectMultiScale rectLColor) ;;
  foundR <- call (hog_detectMultiScale rectRColor) ;;
  ret (centers foundL, centers foundR).

End Detection.

(* ===================================================================== *)
(** ** The relay server ([src/server.js]) *)
(* ===================================================================== *)

Module Relay.

(** What the relay does that can be seen from outside. *)
Inductive Out :=
| Logged (message : string)                       (* console.log('Received:', message) *)
| Forwarded (client : Socket) (message : string). (* client.send(message) *)

(** The loop over [wss.clients] (lines 14-18, and [forEach] at lines
    37-41): every client other than the sender [ws] whose [readyState] is
    [OPEN] is sent [message].  Nothing catches a throwing [send]. *)
Fixpoint forward (net : Net) (ws : Socket) (message : string) (clients : list Socket)
  : list Out * Outcome unit :=
  match clients with
  | [] => ([], Returns tt)
  | client :: rest =>
      if negb (Nat.eqb client ws) && Nat.eqb (readyState net client) ws_OPEN then
        if send_throws net client then ([], Throws)
        else
          let '(out, o) := forward net ws message rest in
          (Forwarded client message :: out, o)
      else forward net ws message rest
  end.

(** The ['message'] handler of the connection [ws] (lines 12-19 and
    35-42); [clients] is [wss.clients], the connected sockets in the order
    they connected. *)
Definition on_message (net : Net) (clients : list Socket) (ws : Socket) (message : string)
  : list Out * Outcome unit :=
  let '(out, o) := forward net ws message clients in
  (Logged message :: out, o).

(** The clients [message] was forwarded to, in order. *)
Definition forwarded_to (out : list Out) : list Socket :=
  flat_map (fun e => match e with Forwarded c _ => [c] | Logged _ => [] end) out.

(** A client the loop sends to: not the sender, and open. *)
Definition is_target (net : Net) (ws client : Socket) : bool :=
  negb (Nat.eqb client ws) && Nat.eqb (readyState net client) ws_OPEN.

End Relay.

(* ===================================================================== *)
(** ** A small concrete platform, for running the model *)
(* ===================================================================== *)

Module Demo.
Local Open Scope string_scope.
Local Open Scope float_scope.

(** A box of size 40 x 80 whose centre is [(cx, cy)]. *)
Definition box (cx cy : float) : Rect :=
  {| rect_x := cx - 20; rect_y := cy - 40; rect_width := 40; rect_height := 80 |}.

(** Messages are written [role front], [role back], [role viewer] and
    [frame <name>@<t>] with a few fixed times; anything else fails to
    parse. *)
Definition frame_msg (t : Z) (img : string) : Msg :=
  {| msg_type := "frame"; msg_role := ""; msg_seq := 0; msg_timestamp := t; msg_img := img |}.

Definition role_msg (r : string) : Msg :=
  {| msg_type := "role"; msg_role := r; msg_seq := 0; msg_timestamp := 0; msg_img := "" |}.

Definition parse_table : list (string * Msg) :=
  [ ("role front", role_msg "front");
    ("role back", role_msg "back");
    ("role viewer", role_msg "viewer");
    ("frame L@1000", frame_msg 1000 "L");
    ("frame L@2000", frame_msg 2000 "L");
    ("frame R@900", frame_msg 900 "R");
    ("frame R@1150", frame_msg 1150 "R");
    ("frame R@1300", frame_msg 1300 "R");
    ("frame R@2010", frame_msg 2010 "R");
    ("frame bad@1000", frame_msg 1000 "bad") ].

Fixpoint lookup {A} (k : string) (tbl : list (string * A)) : option A :=
  match tbl with
  | [] => None
  | (k', v) :: tbl' => if String.eqb k k' then Some v else lookup k tbl'
  end.

(** An image is the list of boxes the detector finds in it. *)
Definition imgL : list Rect := [box 200 120; box 90 100].
Definition imgR : list Rect := [box 180 120; box 95 100; box 10 10].

Definition image_table : list (string * list Rect) := [ ("L", imgL); ("R", imgR) ].

#[export] Instance platform : Platform := {|
  Image := list Rect;
  RectifyMap := Camera;
  JSON_parse := fun s => lookup s parse_table;
  imdecode := fun s => lookup s image_table;
  bgrToGray := fun img => Some img;
  stereoRectify := fun _ _ _ _ _ r _ =>
    Some {| R1 := r; R2 := r; P1 := r; P2 := r; Q := r |};
  initUndistortRectifyMap := fun m _ _ _ _ => Some LeftCam;
  remap := fun img _ => Some img;
  stereoBM_compute := fun l _ => Some l;
  hog_detectMultiScale := fun img => Some img
|}.

(** fx = fy = 500, cx = 160, cy = 120, T = (-0.125, 0, 0). *)
Definition cal : Calibration :=
  {| cameraMatrix1 := [[500; 0; 160]; [0; 500; 120]; [0; 0; 1]];
     distCoeffs1 := [[0; 0; 0; 0; 0]];
     cameraMatrix2 := [[500; 0; 160]; [0; 500; 120]; [0; 0; 1]];
     distCoeffs2 := [[0; 0; 0; 0; 0]];
     R := [[1; 0; 0]; [0; 1; 0]; [0; 0; 1]];
     T := [[-0.125; 0; 0]];
     imageSize := (320, 240)%Z |}.

(** Every socket open, no [send] throws. *)
Definition net_ok : Net := {| readyState := fun _ => ws_OPEN; send_throws := fun _ => false |}.

(** Every socket open, [send] throws on socket 1. *)
Definition net_fail1 : Net :=
  {| readyState := fun _ => ws_OPEN; send_throws := fun s => Nat.eqb s 1 |}.

Definition fr (t : Z) : FrameRecord := {| seq := 0; timestamp := t; matColor := [] |}.

(** A running server with a front camera on socket 1 and a back camera on
    socket 2. *)
Definition srv0 : Server :=
  {| calib := cal;
     rectification := {| R1 := R cal; R2 := R cal; P1 := R cal; P2 := R cal; Q := R cal |};
     frameBuffers := {| front := []; back := [] |};
     clients := [(1%nat, "front"); (2%nat, "back")] |}.

(** Socket 3 connects and asks for a role that does not exist; sockets 1
    and 2 register as front and back and send one frame each, 100 ms
    apart. *)
Definition session : list Inbound :=
  [ Message 3%nat "role viewer"; Message 1%nat "role front"; Message 2%nat "role back";
    Message 1%nat "frame L@1000"; Message 2%nat "frame R@900" ].

(** The same, then a second pair of frames. *)
Definition two_pairs : list Inbound :=
  (session ++ [ Message 2%nat "frame R@2010"; Message 1%nat "frame L@2000" ])%list.

(** Eight left centres and three right centres. *)
Definition pt (x y : float) : Point2 := {| pt_x := x; pt_y := y |}.

Definition eight_left : list Point2 :=
  [pt 200 120; pt 90 100; pt 60 50; pt 10 10; pt 20 20; pt 30 30; pt 40 40; pt 50 50].

Definition three_right : list Point2 := [pt 180 120; pt 95 100; pt 50 50].

(** The registry of [srv0] with a third camera on socket 4. *)
Definition srv3 : Server :=
  set_clients srv0 [(1%nat, "front"); (2%nat, "back"); (4%nat, "front")].

(** Every socket open, [send] throws on socket 2. *)
Definition net_fail2 : Net :=
  {| readyState := fun _ => ws_OPEN; send_throws := fun s => Nat.eqb s 2 |}.

(** What the pair [(imgL, imgR)] reconstructs to: one subject at depth
    3.125, then five empty slots. *)
Definition payload0 : Payload :=
  payload_of [ {| pos_x := 0.25; pos_y := 0; pos_z := 3.125 |};
               sentinel; sentinel; sentinel; sentinel; sentinel ].

(** [srv0] with one front frame, taken at 1000, waiting. *)
Definition srv1 : Server :=
  set_frameBuffers srv0
    {| front := [{| seq := 0; timestamp := 1000; matColor := imgL |}]; back := [] |}.

(** A platform like the one above, except that the detector throws on an
    image in which there is nothing to find. *)
Definition fragile : Platform := {|
  Image := list Rect;
  RectifyMap := Camera;
  JSON_parse := fun s => lookup s parse_table;
  imdecode := fun s => lookup s image_table;
  bgrToGray := fun img => Some img;
  stereoRectify := fun _ _ _ _ _ r _ =>
    Some {| R1 := r; R2 := r; P1 := r; P2 := r; Q := r |};
  initUndistortRectifyMap := fun m _ _ _ _ => Some LeftCam;
  remap := fun img _ => Some img;
  stereoBM_compute := fun l _ => Some l;
  hog_detectMultiScale := fun img => match img with [] => None | _ => Some img end
|}.

Definition fragile_srv : @Server fragile :=
  {| calib := cal;
     rectification := {| R1 := R cal; R2 := R cal; P1 := R cal; P2 := R cal; Q := R cal |};
     frameBuffers := {| front := []; back := [] |};
     clients := [(1%nat, "front"); (2%nat, "back")] |}.

End Demo.

(* ===================================================================== *)
(** * Properties *)
(* ===================================================================== *)

(** ** Numbers *)

(** A strictly positive number is not [<= 0]: read off the comparison of
    the two decoded values. *)
Lemma gt0_not_le0 (d : float) : Num.gt0 d = true -> Num.le0 d = false.
Proof.
  unfold Num.gt0, Num.le0.
  rewrite ltb_spec, leb_spec.
  change (Prim2SF 0%float) with (S754_zero false).
  unfold SFltb, SFleb.
  destruct (Prim2SF d) as [s | s | | s m e]; simpl; try discriminate;
    destruct s; simpl; congruence.
Qed.

(** ** Lists *)

Lemma skipn_nth_error {A} (l : list A) (k : nat) (a : A) :
  nth_error l k = Some a -> skipn k l = a :: skipn (S k) l.
Proof.
  revert k; induction l as [| h l IH]; intros [| k] H; simpl in *; try discriminate.
  - now inversion H.
  - now apply IH.
Qed.

Lemma splice1_at {A} (l : list A) (k : nat) (a : A) :
  nth_error l k = Some a -> splice1 (Z.of_nat k) l = ([a], remove_at k l).
Proof.
  intros H. unfold splice1.
  assert (Hlt : (k < List.length l)%nat) by (apply nth_error_Some; congruence).
  destruct (Z.ltb_spec (Z.of_nat k) 0) as [Hneg | _]; [lia |].
  rewrite Z.min_l by lia. rewrite Nat2Z.id.
  now rewrite (skipn_nth_error l k a H).
Qed.

(** ** The pairing matcher *)

Section PairingFacts.
Context {platform : Platform}.

Lemma first_closest_cons_head f a bs :
  (forall b, In b bs -> dt_of f a <= dt_of f b) -> first_closest f (a :: bs) 0 a.
Proof.
  intros H. repeat split.
  - intros b' [<- | Hin]; [lia | now apply H].
  - intros j b' Hj. lia.
Qed.

Lemma first_closest_cons_tail f a bs k b :
  first_closest f bs k b -> dt_of f b < dt_of f a -> first_closest f (a :: bs) (S k) b.
Proof.
  intros (Hk & Hmin & Hfirst) Hlt. repeat split.
  - exact Hk.
  - intros b' [<- | Hin]; [lia | now apply Hmin].
  - intros [| j] b' Hj Hnth; simpl in Hnth.
    + inversion Hnth; subst; exact Hlt.
    + apply (Hfirst j); [lia | exact Hnth].
Qed.

(** The first closest frame is unique. *)
Lemma first_closest_unique f bs k b k' b' :
  first_closest f bs k b -> first_closest f bs k' b' -> k = k' /\ b = b'.
Proof.
  intros (Hk & Hmin & Hfirst) (Hk' & Hmin' & Hfirst').
  assert (Hin : In b bs) by (eapply nth_error_In; eauto).
  assert (Hin' : In b' bs) by (eapply nth_error_In; eauto).
  specialize (Hmin _ Hin'). specialize (Hmin' _ Hin).
  destruct (Nat.lt_trichotomy k k') as [Hlt | [Heq | Hgt]].
  - specialize (Hfirst' _ _ Hlt Hk). lia.
  - subst k'. split; [reflexivity | congruence].
  - specialize (Hfirst _ _ Hgt Hk'). lia.
Qed.

(** What the scan returns: either nothing in [bs] beats the running
    [smallestDt], or the first closest frame of [bs] does and is selected. *)
Lemma scan_spec f bs : forall i bestIdx smallestDt,
  (scan f bs i bestIdx smallestDt = (bestIdx, smallestDt) /\
   forall b, In b bs -> smallestDt <= dt_of f b)
  \/
  (exists k b, first_closest f bs k b /\ dt_of f b < smallestDt /\
               scan f bs i bestIdx smallestDt = (i + Z.of_nat k, dt_of f b)).
Proof.
  induction bs as [| a bs IH]; intros i bestIdx smallestDt; simpl.
  - left. split; [reflexivity | intros b []].
  - destruct (Z.ltb_spec (dt_of f a) smallestDt) as [Hlt | Hge].
    + right.
      destruct (IH (i + 1) i (dt_of f a)) as [[Heq Hall] | (k & b & Hfc & Hb & Heq)].
      * exists 0%nat, a. split; [now apply first_closest_cons_head |].
        split; [exact Hlt |]. rewrite Heq. f_equal. lia.
      * exists (S k), b. split; [now apply first_closest_cons_tail |].
        split; [lia |]. rewrite Heq. f_equal. lia.
    + destruct (IH (i + 1) bestIdx smallestDt) as [[Heq Hall] | (k & b & Hfc & Hb & Heq)].
      * left. split; [exact Heq |].
        intros b [<- | Hin]; [exact Hge | now apply Hall].
      * right. exists (S k), b. split; [apply first_closest_cons_tail; [exact Hfc | lia] |].
        split; [exact Hb |]. rewrite Heq. f_equal. lia.
Qed.

(** A non-empty buffer has a first closest frame. *)
Lemma first_closest_exists f bs :
  bs <> [] -> exists k b, first_closest f bs k b.
Proof.
  destruct bs as [| a bs]; [congruence | intros _].
  destruct (scan_spec f (a :: bs) 0 (-1) (dt_of f a + 1))
    as [[_ Hall] | (k & b & Hfc & _)].
  - specialize (Hall a (or_introl eq_refl)). lia.
  - now exists k, b.
Qed.

(** The matcher past its emptiness test (line 138). *)
Lemma attemptStereoPair_nonempty fb f fs :
  front fb = f :: fs -> back fb <> [] ->
  attemptStereoPair fb =
    let '(bestIdx, smallestDt) := scan f (back fb) 0 (-1) MAX_SAFE_INTEGER in
    if smallestDt >? 200 then ({| front := fs; back := back fb |}, NoCall)
    else
      let '(removed, back') := splice1 bestIdx (back fb) in
      match removed with
      | backFrame :: _ => ({| front := fs; back := back' |}, Call f backFrame)
      | [] => ({| front := fs; back := back' |}, TypeError)
      end.
Proof.
  destruct fb as [fr bk]; simpl. intros -> Hbk.
  destruct bk as [| b0 bk]; [congruence |].
  unfold attemptStereoPair; cbn [front back shift tl].
  destruct (scan f (b0 :: bk) 0 (-1) MAX_SAFE_INTEGER) as [bestIdx smallestDt].
  destruct (smallestDt >? 200); reflexivity.
Qed.

(** C1. With both buffers non-empty, the back buffer has a frame whose
    timestamp is closest to that of the front buffer's head [f], first in
    scan order among the closest; and whenever [b], at index [k], is that
    frame and its difference to [f] is at most 200 ms, the matcher leaves
    the front buffer without [f], the back buffer without its element at
    index [k], and hands [(f, b)] to [processStereoPair]. *)
Theorem attemptStereoPair_pairs_first_closest
        (fb : FrameBuffers) (f : FrameRecord) (fs : list FrameRecord) :
  front fb = f :: fs ->
  back fb <> [] ->
  (exists k b, first_closest f (back fb) k b) /\
  (forall k b,
     first_closest f (back fb) k b ->
     dt_of f b <= 200 ->
     attemptStereoPair fb =
       ({| front := fs; back := remove_at k (back fb) |}, Call f b)).
Proof.
  intros Hfront Hback.
  split; [now apply first_closest_exists |].
  intros k b Hfc Hle.
  rewrite (attemptStereoPair_nonempty fb f fs Hfront Hback).
  destruct (scan_spec f (back fb) 0 (-1) MAX_SAFE_INTEGER)
    as [[_ Hall] | (k' & b' & Hfc' & _ & Heq)].
  - destruct Hfc as (Hk & _ & _).
    specialize (Hall b (nth_error_In _ _ Hk)).
    unfold MAX_SAFE_INTEGER in Hall. lia.
  - destruct (first_closest_unique _ _ _ _ _ _ Hfc Hfc') as [<- <-].
    rewrite Heq. cbn [Z.add].
    destruct (Z.gtb_spec (dt_of f b) 200) as [Hgt | _]; [lia |].
    destruct Hfc as (Hk & _ & _).
    now rewrite (splice1_at _ _ _ Hk).
Qed.

(** C2. With both buffers non-empty, when every back frame is more than
    200 ms away from the front buffer's head, the matcher removes that
    head only: the back buffer is as it was and [processStereoPair] is not
    called. *)
Theorem attemptStereoPair_drops_stale_front
        (fb : FrameBuffers) (f : FrameRecord) (fs : list FrameRecord) :
  front fb = f :: fs ->
  back fb <> [] ->
  (forall b, In b (back fb) -> dt_of f b > 200) ->
  attemptStereoPair fb = ({| front := fs; back := back fb |}, NoCall).
Proof.
  intros Hfront Hback Hfar.
  rewrite (attemptStereoPair_nonempty fb f fs Hfront Hback).
  destruct (scan_spec f (back fb) 0 (-1) MAX_SAFE_INTEGER)
    as [[Heq _] | (k & b & (Hk & _ & _) & _ & Heq)]; rewrite Heq.
  - reflexivity.
  - specialize (Hfar b (nth_error_In _ _ Hk)).
    destruct (Z.gtb_spec (dt_of f b) 200) as [_ | Hle]; [reflexivity | lia].
Qed.

End PairingFacts.

(** ** Triangulation and the six-slot result *)

Lemma nth_error_combine_Some {A B} (l : list A) (r : list B) (i : nat) (a : A) (b : B) :
  nth_error l i = Some a -> nth_error r i = Some b ->
  nth_error (combine l r) i = Some (a, b).
Proof.
  revert r i; induction l as [| x l IH]; intros [| y r] [| i] Ha Hb;
    simpl in *; try discriminate.
  - congruence.
  - now apply IH.
Qed.

Section TriangulationFacts.
Variable cal : Calibration.

Lemma pad_loop_repeat todo : forall result3D,
  pad_loop todo result3D = result3D ++ repeat sentinel todo.
Proof.
  induction todo as [| todo IH]; intros result3D; simpl.
  - now rewrite app_nil_r.
  - rewrite IH, <- app_assoc. reflexivity.
Qed.

(** The loop never reads past the end while [i + todo] stays within both
    lists, and appends the triangulated pairs [i .. i + todo - 1]. *)
Lemma triangulate_loop_spec centersL centersR todo : forall i result3D,
  (i + todo <= List.length centersL)%nat ->
  (i + todo <= List.length centersR)%nat ->
  triangulate_loop cal centersL centersR todo i result3D =
    Some (result3D ++
          map (fun p => triangulate cal (fst p) (snd p))
              (firstn todo (skipn i (combine centersL centersR)))).
Proof.
  induction todo as [| todo IH]; intros i result3D HL HR; simpl.
  - now rewrite app_nil_r.
  - destruct (nth_error centersL i) as [ptL |] eqn:EL;
      [| apply nth_error_None in EL; lia].
    destruct (nth_error centersR i) as [ptR |] eqn:ER;
      [| apply nth_error_None in ER; lia].
    rewrite IH by lia.
    rewrite (skipn_nth_error _ _ _ (nth_error_combine_Some _ _ _ _ _ EL ER)).
    simpl. rewrite <- app_assoc. reflexivity.
Qed.

Lemma numDetected_bounds centersL centersR :
  (numDetected centersL centersR <= List.length centersL /\
   numDetected centersL centersR <= List.length centersR /\
   numDetected centersL centersR <= 6)%nat.
Proof. unfold numDetected. lia. Qed.

Lemma real_entries_length centersL centersR :
  List.length (real_entries cal centersL centersR) = numDetected centersL centersR.
Proof.
  unfold real_entries.
  rewrite length_map, length_firstn, length_combine.
  pose proof (numDetected_bounds centersL centersR). lia.
Qed.

(** [result3D] at line 242: the real entries, then sentinels up to six. *)
Lemma result3D_of_eq centersL centersR :
  result3D_of cal centersL centersR =
    Some (real_entries cal centersL centersR ++
          repeat sentinel (6 - numDetected centersL centersR)).
Proof.
  unfold result3D_of.
  pose proof (numDetected_bounds centersL centersR) as (HL & HR & _).
  rewrite triangulate_loop_spec by (simpl; assumption).
  simpl. fold (real_entries cal centersL centersR).
  now rewrite pad_loop_repeat, real_entries_length.
Qed.

Lemma real_entries_nth centersL centersR i ptL ptR :
  (i < numDetected centersL centersR)%nat ->
  nth_error centersL i = Some ptL ->
  nth_error centersR i = Some ptR ->
  nth_error (real_entries cal centersL centersR) i = Some (triangulate cal ptL ptR).
Proof.
  intros Hi EL ER. unfold real_entries.
  rewrite nth_error_map, nth_error_firstn.
  destruct (Nat.ltb_spec i (numDetected centersL centersR)) as [_ | Hge]; [| lia].
  now rewrite (nth_error_combine_Some _ _ _ _ _ EL ER).
Qed.

(** Slot [i] of the result for a triangulated index. *)
Lemma result3D_of_nth_real centersL centersR i ptL ptR :
  (i < numDetected centersL centersR)%nat ->
  nth_error centersL i = Some ptL ->
  nth_error centersR i = Some ptR ->
  exists result3D,
    result3D_of cal centersL centersR = Some result3D /\
    nth_error result3D i = Some (triangulate cal ptL ptR).
Proof.
  intros Hi EL ER. eexists. split; [apply result3D_of_eq |].
  rewrite nth_error_app1 by (rewrite real_entries_length; exact Hi).
  now apply real_entries_nth.
Qed.

(** C4. For a triangulated index [i] (below [numDetected]) whose
    disparity [d = ptL.x - ptR.x] is positive, slot [i] of the result is
    [Z = fx * B / d], [X = (ptL.x - cx) * Z / fx],
    [Y = (ptL.y - cy) * Z / fy], with [fx], [fy], [cx], [cy] read from
    [cameraMatrix1] and [B = |T(0,0)|]; the operations are the binary64
    ones, applied in the order written. *)
Theorem triangulated_slot_positive_disparity
        (centersL centersR : list Point2) (i : nat) (ptL ptR : Point2) :
  (i < numDetected centersL centersR)%nat ->
  nth_error centersL i = Some ptL ->
  nth_error centersR i = Some ptR ->
  Num.gt0 (pt_x ptL - pt_x ptR)%float = true ->
  let d := (pt_x ptL - pt_x ptR)%float in
  let fx := mat_at (cameraMatrix1 cal) 0 0 in
  let fy := mat_at (cameraMatrix1 cal) 1 1 in
  let cx := mat_at (cameraMatrix1 cal) 0 2 in
  let cy := mat_at (cameraMatrix1 cal) 1 2 in
  let B := PrimFloat.abs (mat_at (T cal) 0 0) in
  let Z := (fx * B / d)%float in
  exists result3D,
    result3D_of cal centersL centersR = Some result3D /\
    nth_error result3D i =
      Some {| pos_x := ((pt_x ptL - cx) * Z / fx)%float;
              pos_y := ((pt_y ptL - cy) * Z / fy)%float;
              pos_z := Z |}.
Proof.
  intros Hi EL ER Hpos; cbv zeta.
  destruct (result3D_of_nth_real centersL centersR i ptL ptR Hi EL ER)
    as (result3D & Hres & Hnth).
  exists result3D. split; [exact Hres |].
  rewrite Hnth. unfold triangulate.
  now rewrite (gt0_not_le0 _ Hpos).
Qed.

(** C5. For a triangulated index [i] whose disparity
    [d = ptL.x - ptR.x] is [<= 0], slot [i] of the result is the sentinel
    [(0, 0, -1)]. *)
Theorem triangulated_slot_nonpositive_disparity
        (centersL centersR : list Point2) (i : nat) (ptL ptR : Point2) :
  (i < numDetected centersL centersR)%nat ->
  nth_error centersL i = Some ptL ->
  nth_error centersR i = Some ptR ->
  Num.le0 (pt_x ptL - pt_x ptR)%float = true ->
  exists result3D,
    result3D_of cal centersL centersR = Some result3D /\
    nth_error result3D i = Some sentinel.
Proof.
  intros Hi EL ER Hle.
  destruct (result3D_of_nth_real centersL centersR i ptL ptR Hi EL ER)
    as (result3D & Hres & Hnth).
  exists result3D. split; [exact Hres |].
  rewrite Hnth. unfold triangulate. now rewrite Hle.
Qed.

(** C6. With [n = min(|left|, |right|, 6)], the result has six slots:
    slot [i < n] is the triangulation of the [i]-th left centre with the
    [i]-th right centre, and the slots [n <= i < 6] are sentinels. *)
Theorem result_slots_by_index (centersL centersR : list Point2) :
  let n := numDetected centersL centersR in
  n = Nat.min (Nat.min (List.length centersL) (List.length centersR)) 6 /\
  exists result3D,
    result3D_of cal centersL centersR = Some result3D /\
    List.length result3D = 6%nat /\
    (forall i, (i < n)%nat ->
       exists ptL ptR,
         nth_error centersL i = Some ptL /\
         nth_error centersR i = Some ptR /\
         nth_error result3D i = Some (triangulate cal ptL ptR)) /\
    (forall i, (n <= i < 6)%nat -> nth_error result3D i = Some sentinel).
Proof.
  cbv zeta. split; [reflexivity |].
  pose proof (numDetected_bounds centersL centersR) as (HL & HR & H6).
  eexists. split; [apply result3D_of_eq |]. split; [| split].
  - rewrite length_app, real_entries_length, repeat_length. lia.
  - intros i Hi.
    destruct (nth_error centersL i) as [ptL |] eqn:EL;
      [| apply nth_error_None in EL; lia].
    destruct (nth_error centersR i) as [ptR |] eqn:ER;
      [| apply nth_error_None in ER; lia].
    exists ptL, ptR. repeat split.
    rewrite nth_error_app1 by (rewrite real_entries_length; exact Hi).
    now apply real_entries_nth.
  - intros i [Hn Hi].
    rewrite nth_error_app2 by (rewrite real_entries_length; exact Hn).
    rewrite real_entries_length.
    apply nth_error_repeat. lia.
Qed.

End TriangulationFacts.

(** ** Effects *)

Lemma bind_ret_l {A B} (a : A) (f : A -> Eff B) : bind (ret a) f = f a.
Proof. unfold bind, ret. now destruct (f a). Qed.

Lemma bind_throw {A B} (f : A -> Eff B) : bind throw f = throw.
Proof. reflexivity. Qed.

Lemma bind_emit {B} (e : Event) (f : unit -> Eff B) :
  bind (emit e) f = (e :: trace (f tt), outcome (f tt)).
Proof. unfold bind, emit, trace, outcome. now destruct (f tt). Qed.

Lemma bind_call_Some {A B} (a : A) (f : A -> Eff B) : bind (call (Some a)) f = f a.
Proof. apply bind_ret_l. Qed.

Lemma bind_call_None {A B} (f : A -> Eff B) : bind (call None) f = throw.
Proof. reflexivity. Qed.

Lemma bind_returns_inv {A B} (m : Eff A) (f : A -> Eff B) tr (b : B) :
  bind m f = (tr, Returns b) ->
  exists tr1 a tr2, m = (tr1, Returns a) /\ f a = (tr2, Returns b) /\ tr = tr1 ++ tr2.
Proof.
  destruct m as [tr1 [a |]]; simpl; [| discriminate].
  destruct (f a) as [tr2 r] eqn:E. intros H; inversion H; subst.
  now exists tr1, a, tr2.
Qed.

Lemma trace_bind {A B} (m : Eff A) (f : A -> Eff B) :
  trace (bind m f) =
    trace m ++ match outcome m with Returns a => trace (f a) | Throws => [] end.
Proof.
  destruct m as [tr [a |]]; simpl.
  - now destruct (f a).
  - now rewrite app_nil_r.
Qed.

Lemma outcome_try_catch_emit (m : Eff unit) (e : Event) :
  outcome (try_catch m (emit e)) = Returns tt.
Proof. destruct m as [tr [[] |]]; reflexivity. Qed.

Lemma trace_try_catch_emit (m : Eff unit) (e : Event) :
  trace (try_catch m (emit e)) =
    trace m ++ match outcome m with Returns _ => [] | Throws => [e] end.
Proof. destruct m as [tr [[] |]]; simpl; [now rewrite app_nil_r | reflexivity]. Qed.


Lemma count_app (p : Event -> bool) (tr1 tr2 : list Event) :
  count p (tr1 ++ tr2) = (count p tr1 + count p tr2)%nat.
Proof. unfold count. now rewrite filter_app, length_app. Qed.

Lemma count_none (p : Event -> bool) (tr : list Event) :
  (forall e, In e tr -> p e = false) -> count p tr = 0%nat.
Proof.
  unfold count. induction tr as [| e tr IH]; intros H; simpl; [reflexivity |].
  rewrite (H e (or_introl eq_refl)). apply IH. intros e' He'. apply H. now right.
Qed.

Lemma filter_is_sent_deliveries (payload : Payload) (clis : list Socket) :
  filter is_sent (deliveries payload clis) = deliveries payload clis.
Proof. induction clis as [| c clis IH]; simpl; [reflexivity | now rewrite IH]. Qed.

Lemma in_deliveries (payload : Payload) (clis : list Socket) (e : Event) :
  In e (deliveries payload clis) -> exists cli, In cli clis /\ e = Sent cli payload.
Proof.
  unfold deliveries. rewrite in_map_iff. intros (cli & <- & Hin). now exists cli.
Qed.

(** ** Broadcast *)

Section BroadcastFacts.
Variable net : Net.
Variable payload : Payload.

(** One turn of the loop on an open socket whose [send] succeeds. *)
Lemma broadcast_cons_sent cli r rest :
  is_open net cli = true -> send_throws net cli = false ->
  broadcast net payload ((cli, r) :: rest) =
    (Sent cli payload :: trace (broadcast net payload rest),
     outcome (broadcast net payload rest)).
Proof.
  intros Hopen Hok. simpl. unfold is_open in Hopen. rewrite Hopen.
  unfold send. rewrite Hok. apply bind_emit.
Qed.

(** One turn of the loop on a socket that is not open. *)
Lemma broadcast_cons_skipped cli r rest :
  is_open net cli = false ->
  broadcast net payload ((cli, r) :: rest) = broadcast net payload rest.
Proof.
  intros Hclosed. simpl. unfold is_open in Hclosed. rewrite Hclosed.
  now rewrite bind_ret_l.
Qed.

(** One turn of the loop on an open socket whose [send] throws. *)
Lemma broadcast_cons_throws cli r rest :
  is_open net cli = true -> send_throws net cli = true ->
  broadcast net payload ((cli, r) :: rest) = ([], Throws).
Proof.
  intros Hopen Hthrow. simpl. unfold is_open in Hopen. rewrite Hopen.
  unfold send. now rewrite Hthrow.
Qed.

(** The loop up to its first throwing [send]. *)
Lemma broadcast_stops_at_throw (before : Clients) cli r (rest : Clients) :
  (forall c, In c (map fst before) -> is_open net c = true -> send_throws net c = false) ->
  is_open net cli = true -> send_throws net cli = true ->
  broadcast net payload (before ++ (cli, r) :: rest) =
    (deliveries payload (filter (is_open net) (map fst before)), Throws).
Proof.
  intros Hbefore Hopen Hthrow.
  induction before as [| [c rc] before IH]; simpl app.
  - now apply broadcast_cons_throws.
  - assert (IH' := IH (fun c' Hin => Hbefore c' (or_intror Hin))).
    cbn [map fst filter].
    destruct (is_open net c) eqn:Hc.
    + rewrite broadcast_cons_sent;
        [| exact Hc | apply Hbefore; [now left | exact Hc]].
      now rewrite IH'.
    + now rewrite broadcast_cons_skipped.
Qed.

(** The loop when no [send] on an open socket throws. *)
Lemma broadcast_all_sends_return (entries : Clients) :
  (forall c, In c (map fst entries) -> is_open net c = true -> send_throws net c = false) ->
  broadcast net payload entries =
    (deliveries payload (filter (is_open net) (map fst entries)), Returns tt).
Proof.
  intros Hok. induction entries as [| [c rc] entries IH]; [reflexivity |].
  assert (IH' := IH (fun c' Hin => Hok c' (or_intror Hin))).
  cbn [map fst filter].
  destruct (is_open net c) eqn:Hc.
  - rewrite broadcast_cons_sent; [| exact Hc | apply Hok; [now left | exact Hc]].
    now rewrite IH'.
  - now rewrite broadcast_cons_skipped.
Qed.

(** A loop that comes to its end has sent to every open socket of the
    registry, in order. *)
Lemma broadcast_returns_inv (entries : Clients) tr :
  broadcast net payload entries = (tr, Returns tt) ->
  tr = deliveries payload (filter (is_open net) (map fst entries)).
Proof.
  revert tr. induction entries as [| [c rc] entries IH]; intros tr H.
  - now inversion H.
  - cbn [map fst filter].
    destruct (is_open net c) eqn:Hc.
    + destruct (send_throws net c) eqn:Hs.
      * rewrite broadcast_cons_throws in H by assumption. discriminate.
      * rewrite broadcast_cons_sent in H by assumption.
        destruct (broadcast net payload entries) as [tr' o] eqn:E.
        cbn [trace outcome fst snd] in H. inversion H; subst.
        simpl. f_equal. now apply IH.
    + rewrite broadcast_cons_skipped in H by assumption. now apply IH.
Qed.

(** Whatever happens, the loop only sends [payload], and only to open
    sockets of the registry. *)
Lemma broadcast_trace_in (entries : Clients) (e : Event) :
  In e (trace (broadcast net payload entries)) ->
  exists cli, e = Sent cli payload /\ In cli (map fst entries) /\ is_open net cli = true.
Proof.
  induction entries as [| [c rc] entries IH]; intros Hin.
  - destruct Hin.
  - destruct (is_open net c) eqn:Hc.
    + destruct (send_throws net c) eqn:Hs.
      * rewrite broadcast_cons_throws in Hin by assumption. destruct Hin.
      * rewrite broadcast_cons_sent in Hin by assumption.
        destruct Hin as [<- | Hin].
        -- exists c. repeat split; [now left | exact Hc].
        -- destruct (IH Hin) as (cli & -> & Hreg & Hopen).
           exists cli. repeat split; [now right | exact Hopen].
    + rewrite broadcast_cons_skipped in Hin by assumption.
      destruct (IH Hin) as (cli & -> & Hreg & Hopen).
      exists cli. repeat split; [now right | exact Hopen].
Qed.

End BroadcastFacts.

(** ** The reconstruction pipeline *)

Section PipelineFacts.
Context {platform : Platform}.

(** Split on the next delegated call whose result is not yet known. *)
Ltac destruct_call :=
  match goal with
  | |- context [call ?o] =>
      lazymatch o with
      | Some _ => fail
      | None => fail
      | _ => destruct o; cbn [call bind ret throw emit app]
      end
  end.

(** Steps (A)-(D) either throw, having at most started the two map
    computations, or return the centres of whatever the detector found,
    having computed both maps. *)
Lemma detect_centers_cases (srv : Server) (imgLeftColor imgRightColor : Image) :
  (exists tr, detect_centers srv imgLeftColor imgRightColor = (tr, Throws) /\
              forall e, In e tr -> exists cam, e = CallInitUndistortRectifyMap cam)
  \/
  (exists foundL foundR,
     detect_centers srv imgLeftColor imgRightColor =
       ([CallInitUndistortRectifyMap LeftCam; CallInitUndistortRectifyMap RightCam],
        Returns (centers foundL, centers foundR))).
Proof.
  unfold detect_centers, initMap.
  repeat destruct_call;
    try (right; do 2 eexists; reflexivity);
    left; eexists; (split; [reflexivity |]);
    intros e He; cbn in He;
    repeat (destruct He as [<- | He]; [eexists; reflexivity |]); destruct He.
Qed.

(** The [try] block, once detection has returned. *)
Lemma processStereoPair_try_detected net srv imgLeftColor imgRightColor tr centersL centersR :
  detect_centers srv imgLeftColor imgRightColor = (tr, Returns (centersL, centersR)) ->
  let payload :=
    payload_of (real_entries (calib srv) centersL centersR ++
                repeat sentinel (6 - numDetected centersL centersR)) in
  processStereoPair_try net srv imgLeftColor imgRightColor =
    (tr ++ trace (broadcast net payload (clients srv)),
     outcome (broadcast net payload (clients srv))).
Proof.
  intros Hdet payload. unfold processStereoPair_try. rewrite Hdet.
  cbn [bind fst snd]. rewrite result3D_of_eq, bind_call_Some.
  fold payload. now destruct (broadcast net payload (clients srv)).
Qed.

(** The shape of every run of the [try] block: map computations, then
    sends of one six-slot payload to open sockets of the registry. *)
Lemma processStereoPair_try_shape net srv imgLeftColor imgRightColor :
  (exists tr,
     processStereoPair_try net srv imgLeftColor imgRightColor = (tr, Throws) /\
     forall e, In e tr -> exists cam, e = CallInitUndistortRectifyMap cam)
  \/
  (exists centersL centersR,
     let payload :=
       payload_of (real_entries (calib srv) centersL centersR ++
                   repeat sentinel (6 - numDetected centersL centersR)) in
     processStereoPair_try net srv imgLeftColor imgRightColor =
       ([CallInitUndistortRectifyMap LeftCam; CallInitUndistortRectifyMap RightCam]
          ++ trace (broadcast net payload (clients srv)),
        outcome (broadcast net payload (clients srv)))).
Proof.
  destruct (detect_centers_cases srv imgLeftColor imgRightColor)
    as [(tr & Hdet & Htr) | (foundL & foundR & Hdet)].
  - left. exists tr. split; [| exact Htr].
    unfold processStereoPair_try. now rewrite Hdet.
  - right. exists (centers foundL), (centers foundR).
    now apply processStereoPair_try_detected.
Qed.

Lemma payload_six_slots cal centersL centersR :
  List.length (payload_data
    (payload_of (real_entries cal centersL centersR ++
                 repeat sentinel (6 - numDetected centersL centersR)))) = 6%nat.
Proof.
  cbn [payload_of payload_data].
  rewrite length_app, real_entries_length, repeat_length.
  pose proof (numDetected_bounds centersL centersR). lia.
Qed.

(** An event of [processStereoPair] is an event of its [try] block or the
    [console.error] of its [catch]. *)
Lemma processStereoPair_trace_in net srv imgLeftColor imgRightColor e :
  In e (trace (processStereoPair net srv imgLeftColor imgRightColor)) ->
  In e (trace (processStereoPair_try net srv imgLeftColor imgRightColor)) \/ e = ConsoleError.
Proof.
  unfold processStereoPair. rewrite trace_try_catch_emit, in_app_iff.
  intros [H | H]; [now left |].
  destruct (outcome _); [destruct H |].
  destruct H as [<- | []]. now right.
Qed.

(** C3. Every message [processStereoPair] sends has type [3d_positions]
    and exactly six positions.  Detection has then returned, with boxes
    [foundL] for the left image and [foundR] for the right one, and the six
    positions are: first the triangulations of the index-paired centres of
    the first [n = min(|foundL|, |foundR|, 6)] boxes, in detection order,
    then [6 - n] sentinels [(0, 0, -1)]. *)
Theorem broadcast_result_has_six_positions
        (net : Net) (srv : Server) (imgLeftColor imgRightColor : Image)
        (cli : Socket) (p : Payload) :
  In (Sent cli p) (trace (processStereoPair net srv imgLeftColor imgRightColor)) ->
  payload_type p = "3d_positions"%string /\
  List.length (payload_data p) = 6%nat /\
  exists tr foundL foundR,
    detect_centers srv imgLeftColor imgRightColor =
      (tr, Returns (centers foundL, centers foundR)) /\
    let n := Nat.min (Nat.min (List.length foundL) (List.length foundR)) 6 in
    payload_data p =
      map (fun lr => triangulate (calib srv) (fst lr) (snd lr))
          (firstn n (combine (centers foundL) (centers foundR)))
      ++ repeat sentinel (6 - n).
Proof.
  intros Hin.
  apply processStereoPair_trace_in in Hin. destruct Hin as [Hin | Hin]; [| discriminate].
  destruct (detect_centers_cases srv imgLeftColor imgRightColor)
    as [(tr & Hdet & Htr) | (foundL & foundR & Hdet)].
  - unfold processStereoPair_try in Hin. rewrite Hdet in Hin. cbn [bind trace fst] in Hin.
    destruct (Htr _ Hin) as (cam & Hcam). discriminate.
  - rewrite (processStereoPair_try_detected net srv _ _ _ _ _ Hdet) in Hin.
    cbn [trace fst] in Hin.
    destruct Hin as [Hin | [Hin | Hin]]; try discriminate.
    apply broadcast_trace_in in Hin. destruct Hin as (cli' & Hsent & _).
    inversion Hsent; subst.
    split; [reflexivity |]. split; [apply payload_six_slots |].
    eexists _, foundL, foundR. split; [exact Hdet |].
    cbv zeta. cbn [payload_of payload_data].
    unfold real_entries, numDetected, centers. now rewrite !length_map.
Qed.

Lemma processStereoPair_event_kinds net srv imgLeftColor imgRightColor e :
  In e (trace (processStereoPair net srv imgLeftColor imgRightColor)) ->
  (exists cam, e = CallInitUndistortRectifyMap cam) \/
  (exists cli p, e = Sent cli p) \/
  e = ConsoleError.
Proof.
  intros Hin. apply processStereoPair_trace_in in Hin.
  destruct Hin as [Hin | ->]; [| now right; right].
  destruct (processStereoPair_try_shape net srv imgLeftColor imgRightColor)
    as [(tr & Heq & Htr) | (centersL & centersR & Heq)].
  - rewrite Heq in Hin. left. now apply Htr.
  - cbv zeta in Heq. rewrite Heq in Hin. cbn [trace fst] in Hin.
    destruct Hin as [<- | [<- | Hin]]; [left; eexists; reflexivity .. |].
    apply broadcast_trace_in in Hin. destruct Hin as (cli & -> & _).
    right; left. now do 2 eexists.
Qed.

(** [processStereoPair] catches whatever its [try] block throws. *)
Lemma processStereoPair_returns net srv imgLeftColor imgRightColor :
  outcome (processStereoPair net srv imgLeftColor imgRightColor) = Returns tt.
Proof. apply outcome_try_catch_emit. Qed.

(** A [try] block that completes has computed each map once and sent one
    six-slot payload to every open socket of the registry. *)
Lemma processStereoPair_try_returns_inv net srv imgLeftColor imgRightColor tr :
  processStereoPair_try net srv imgLeftColor imgRightColor = (tr, Returns tt) ->
  exists result3D,
    List.length result3D = 6%nat /\
    tr = [CallInitUndistortRectifyMap LeftCam; CallInitUndistortRectifyMap RightCam] ++
         deliveries (payload_of result3D) (filter (is_open net) (map fst (clients srv))).
Proof.
  intros H.
  destruct (processStereoPair_try_shape net srv imgLeftColor imgRightColor)
    as [(tr' & Heq & _) | (centersL & centersR & Heq)].
  - rewrite Heq in H. discriminate.
  - cbv zeta in Heq. rewrite Heq in H.
    eexists. split; [apply (payload_six_slots (calib srv) centersL centersR) |].
    cbn [payload_of payload_data].
    match type of H with
    | (_ ++ trace ?b, outcome ?b) = _ => destruct b as [trb ob] eqn:Eb
    end.
    cbn [trace outcome fst snd] in H. inversion H; subst.
    cbn [app]. do 2 f_equal. now apply broadcast_returns_inv.
Qed.

End PipelineFacts.

(** ** The message handler and the event loop *)

Section HandlerFacts.
Context {platform : Platform}.

Lemma startup_trace (cal : Calibration) : trace (startup cal) = [CallStereoRectify].
Proof.
  unfold startup. rewrite bind_emit. cbn [trace fst]. f_equal.
  destruct (stereoRectify _ _ _ _ _ _ _); reflexivity.
Qed.

(** The handler's results, branch by branch: the events it produces are
    console output or those of one [processStereoPair], and the server it
    returns has the calibration and rectification it was given. *)
Lemma on_message_cases net socket myRole data srv :
  let m := on_message net socket myRole data srv in
  (forall e, In e (trace m) -> is_stereoRectify e = false) /\
  (forall r srv', outcome m = Returns (r, srv') ->
     calib srv' = calib srv /\ rectification srv' = rectification srv).
Proof.
  cbv zeta. unfold on_message.
  destruct (JSON_parse data) as [msg |];
    [| split; [intros e [<- | []]; reflexivity | intros r srv' H; now inversion H]].
  destruct (String.eqb (msg_type msg) "role").
  { destruct (_ || _).
    - split; [intros e [<- | []]; reflexivity | intros r srv' H; now inversion H].
    - split; [intros e [] | intros r srv' H; now inversion H]. }
  destruct (_ && _);
    [| split; [intros e [] | intros r srv' H; now inversion H]].
  destruct (imdecode (msg_img msg)) as [m |];
    [| split; [intros e [<- | []]; reflexivity | intros r srv' H; now inversion H]].
  destruct (push_frame _ _ _) as [fb |];
    [| split; [intros e [] | intros r srv' H; discriminate]].
  destruct (attemptStereoPair fb) as [fb' [| frontFrame backFrame |]].
  - split; [intros e [] | intros r srv' H; now inversion H].
  - rewrite trace_bind.
    rewrite (processStereoPair_returns net (set_frameBuffers srv fb')).
    cbn [ret trace fst]. rewrite app_nil_r. split.
    + intros e He. apply processStereoPair_event_kinds in He.
      destruct He as [(cam & ->) | [(cli & p & ->) | ->]]; reflexivity.
    + intros r srv'.
      destruct (processStereoPair net (set_frameBuffers srv fb') _ _) as [tr [[] |]];
        cbn; intros H; now inversion H.
  - split; [intros e [] | intros r srv' H; discriminate].
Qed.

Lemma step_no_stereoRectify net st ev e :
  In e (trace (step net st ev)) -> is_stereoRectify e = false.
Proof.
  destruct st as [roles srv]. destruct ev as [socket data | socket]; cbn [step].
  - rewrite trace_bind, in_app_iff. intros [H | H].
    + now apply (on_message_cases net socket (roles socket) data srv).
    + destruct (outcome _); destruct H.
  - intros [<- | []]. reflexivity.
Qed.

Lemma run_from_no_stereoRectify net evs : forall st e,
  In e (trace (run_from net st evs)) -> is_stereoRectify e = false.
Proof.
  induction evs as [| ev evs IH]; intros st e; cbn [run_from].
  - intros [].
  - rewrite trace_bind, in_app_iff. intros [H | H].
    + now apply (step_no_stereoRectify net st ev).
    + destruct (outcome (step net st ev)) as [st' |]; [now apply (IH st') | destruct H].
Qed.

Lemma deliveries_no_initMap cam payload clis :
  count (is_initMap cam) (deliveries payload clis) = 0%nat.
Proof.
  apply count_none. intros e He.
  apply in_deliveries in He. destruct He as (cli & _ & ->). reflexivity.
Qed.

End HandlerFacts.

(** ** Claims about the pipeline, the broadcast and the registry *)

Section ServerClaims.
Context {platform : Platform}.

(** C8, as the code has it.  When detection has returned and [send]
    throws on an open socket of the registry, the sockets registered before
    it have been served, no later socket is, and the exception is caught
    and logged: [processStereoPair] returns. *)
Theorem send_failure_ends_broadcast
        (net : Net) (srv : Server) (imgLeftColor imgRightColor : Image)
        (tr : list Event) (centersL centersR : list Point2)
        (before : Clients) (cli : Socket) (role : string) (rest : Clients) :
  detect_centers srv imgLeftColor imgRightColor = (tr, Returns (centersL, centersR)) ->
  clients srv = before ++ (cli, role) :: rest ->
  (forall c, In c (map fst before) -> is_open net c = true -> send_throws net c = false) ->
  is_open net cli = true ->
  send_throws net cli = true ->
  let payload :=
    payload_of (real_entries (calib srv) centersL centersR ++
                repeat sentinel (6 - numDetected centersL centersR)) in
  processStereoPair net srv imgLeftColor imgRightColor =
    (tr ++ deliveries payload (filter (is_open net) (map fst before)) ++ [ConsoleError],
     Returns tt).
Proof.
  intros Hdet Hclients Hbefore Hopen Hthrow payload.
  unfold processStereoPair.
  rewrite (processStereoPair_try_detected net srv _ _ tr centersL centersR Hdet).
  fold payload. rewrite Hclients.
  rewrite (broadcast_stops_at_throw net payload before cli role rest Hbefore Hopen Hthrow).
  cbn [trace outcome fst snd try_catch emit]. now rewrite <- app_assoc.
Qed.

(** C9, as the code has it.  When detection has returned, the message
    is one [3d_positions] payload of six positions.  If no [send] throws,
    it is sent to every open socket of the registry, in registration order
    and whatever its role, and [processStereoPair] returns.  Whether or not
    a [send] throws, it is sent to no socket outside the registry: an open
    connection that has not registered as front or back is sent nothing. *)
Theorem completed_reconstruction_reaches_registered_open_sockets
        (net : Net) (srv : Server) (imgLeftColor imgRightColor : Image)
        (tr : list Event) (centersL centersR : list Point2) :
  detect_centers srv imgLeftColor imgRightColor = (tr, Returns (centersL, centersR)) ->
  let payload :=
    payload_of (real_entries (calib srv) centersL centersR ++
                repeat sentinel (6 - numDetected centersL centersR)) in
  payload_type payload = "3d_positions"%string /\
  List.length (payload_data payload) = 6%nat /\
  ((forall c, In c (map fst (clients srv)) ->
              is_open net c = true -> send_throws net c = false) ->
   processStereoPair net srv imgLeftColor imgRightColor =
     (tr ++ deliveries payload (filter (is_open net) (map fst (clients srv))),
      Returns tt)) /\
  (forall cli p,
     In (Sent cli p) (trace (processStereoPair net srv imgLeftColor imgRightColor)) ->
     p = payload /\ In cli (map fst (clients srv)) /\ is_open net cli = true).
Proof.
  intros Hdet payload.
  split; [reflexivity |]. split; [apply payload_six_slots |].
  pose proof (processStereoPair_try_detected net srv _ _ tr centersL centersR Hdet) as Htry.
  cbv zeta in Htry. fold payload in Htry.
  split.
  - intros Hok. unfold processStereoPair. rewrite Htry.
    rewrite (broadcast_all_sends_return net payload (clients srv) Hok).
    reflexivity.
  - intros cli p Hin.
    apply processStereoPair_trace_in in Hin. destruct Hin as [Hin | Hin]; [| discriminate].
    rewrite Htry in Hin. cbn [trace fst] in Hin. rewrite in_app_iff in Hin.
    destruct Hin as [Hin | Hin].
    + destruct (detect_centers_cases srv imgLeftColor imgRightColor)
        as [(tr' & Hdet' & _) | (foundL & foundR & Hdet')];
        rewrite Hdet' in Hdet; inversion Hdet; subst.
      destruct Hin as [Hin | [Hin | []]]; discriminate.
    + apply broadcast_trace_in in Hin. destruct Hin as (cli' & Hsent & Hreg & Hopen).
      inversion Hsent; subst. now repeat split.
Qed.

(** C10. A role message whose role is neither [front] nor [back] produces
    nothing and changes nothing: the connection's [myRole] and the server
    (registry and buffers) come out as they went in, so whatever the
    connection sends next is handled exactly as if the message had not
    come. *)
Theorem unknown_role_message_is_ignored
        (net : Net) (socket : Socket) (myRole : option string)
        (data : string) (srv : Server) (msg : Msg) :
  JSON_parse data = Some msg ->
  msg_type msg = "role"%string ->
  msg_role msg <> "front"%string ->
  msg_role msg <> "back"%string ->
  on_message net socket myRole data srv = ([], Returns (myRole, srv)) /\
  (forall data',
     (x <- on_message net socket myRole data srv ;;
      on_message net socket (fst x) data' (snd x)) =
     on_message net socket myRole data' srv).
Proof.
  intros Hparse Htype Hfront Hback.
  assert (H : on_message net socket myRole data srv = ([], Returns (myRole, srv))).
  { unfold on_message. rewrite Hparse, Htype. cbn [String.eqb Ascii.eqb Bool.eqb].
    apply String.eqb_neq in Hfront, Hback. now rewrite Hfront, Hback. }
  split; [exact H |].
  intros data'. rewrite H. apply (bind_ret_l (myRole, srv)).
Qed.

End ServerClaims.

(* ===================================================================== *)
(** * Further properties *)
(* ===================================================================== *)

(** ** The matcher, whatever the buffers hold *)

Lemma remove_at_length {A} (l : list A) (k : nat) :
  (k < List.length l)%nat -> S (List.length (remove_at k l)) = List.length l.
Proof.
  intros Hk. unfold remove_at.
  rewrite length_app, length_firstn, length_skipn. lia.
Qed.

Section MatcherFacts.
Context {platform : Platform}.

Lemma attemptStereoPair_paired fb f fs k b :
  front fb = f :: fs -> back fb <> [] ->
  first_closest f (back fb) k b -> dt_of f b <= 200 ->
  attemptStereoPair fb = ({| front := fs; back := remove_at k (back fb) |}, Call f b).
Proof.
  intros Hfront Hback Hfc Hle.
  rewrite (attemptStereoPair_nonempty fb f fs Hfront Hback).
  destruct (scan_spec f (back fb) 0 (-1) MAX_SAFE_INTEGER)
    as [[_ Hall] | (k' & b' & Hfc' & _ & Heq)].
  - destruct Hfc as (Hk & _ & _).
    specialize (Hall b (nth_error_In _ _ Hk)).
    unfold MAX_SAFE_INTEGER in Hall. lia.
  - destruct (first_closest_unique _ _ _ _ _ _ Hfc Hfc') as [<- <-].
    rewrite Heq. cbn [Z.add].
    destruct (Z.gtb_spec (dt_of f b) 200) as [Hgt | _]; [lia |].
    destruct Hfc as (Hk & _ & _).
    now rewrite (splice1_at _ _ _ Hk).
Qed.

Lemma attemptStereoPair_stale fb f fs k b :
  front fb = f :: fs -> back fb <> [] ->
  first_closest f (back fb) k b -> 200 < dt_of f b ->
  attemptStereoPair fb = ({| front := fs; back := back fb |}, NoCall).
Proof.
  intros Hfront Hback Hfc Hgt.
  rewrite (attemptStereoPair_nonempty fb f fs Hfront Hback).
  destruct (scan_spec f (back fb) 0 (-1) MAX_SAFE_INTEGER)
    as [[Heq _] | (k' & b' & Hfc' & _ & Heq)]; rewrite Heq.
  - reflexivity.
  - destruct (first_closest_unique _ _ _ _ _ _ Hfc Hfc') as [<- <-].
    destruct (Z.gtb_spec (dt_of f b) 200) as [_ | Hle]; [reflexivity | lia].
Qed.

(** The three ways one invocation can go. *)
Lemma attemptStereoPair_cases fb :
  ((front fb = [] \/ back fb = []) /\ attemptStereoPair fb = (fb, NoCall))
  \/
  (exists f fs k b,
     front fb = f :: fs /\ first_closest f (back fb) k b /\ 200 < dt_of f b /\
     attemptStereoPair fb = ({| front := fs; back := back fb |}, NoCall))
  \/
  (exists f fs k b,
     front fb = f :: fs /\ first_closest f (back fb) k b /\ dt_of f b <= 200 /\
     attemptStereoPair fb =
       ({| front := fs; back := remove_at k (back fb) |}, Call f b)).
Proof.
  destruct (front fb) as [| f fs] eqn:Hfront.
  { left. split; [now left |]. unfold attemptStereoPair. now rewrite Hfront. }
  destruct (back fb) as [| b0 bs] eqn:Hback.
  { left. split; [now right |]. unfold attemptStereoPair. now rewrite Hfront, Hback. }
  assert (Hne : back fb <> []) by (rewrite Hback; discriminate).
  destruct (first_closest_exists f (back fb) Hne) as (k & b & Hfc).
  right. rewrite <- Hback.
  destruct (Z.le_gt_cases (dt_of f b) 200) as [Hle | Hgt].
  - right. exists f, fs, k, b.
    split; [reflexivity |]. split; [exact Hfc |]. split; [exact Hle |].
    now apply attemptStereoPair_paired.
  - left. exists f, fs, k, b.
    split; [reflexivity |]. split; [exact Hfc |]. split; [lia |].
    apply (attemptStereoPair_stale fb f fs k b); [assumption .. | lia].
Qed.

(** X1. With either buffer empty the matcher touches nothing and calls
    nothing: a lone front frame is not dropped, however old. *)
Theorem attemptStereoPair_waits_for_both_buffers (fb : FrameBuffers) :
  front fb = [] \/ back fb = [] ->
  attemptStereoPair fb = (fb, NoCall).
Proof.
  intros Hempty.
  destruct (attemptStereoPair_cases fb)
    as [[_ H] | [(f & fs & k & b & Hf & (Hk & _) & _) | (f & fs & k & b & Hf & (Hk & _) & _)]];
    [exact H | |];
    (destruct Hempty as [He | He];
     [congruence | rewrite He in Hk; now destruct k]).
Qed.

(** X2. The matcher never reads a back frame that is not there: the index
    it splices at is always inside the back buffer. *)
Theorem attemptStereoPair_never_TypeError (fb : FrameBuffers) :
  snd (attemptStereoPair fb) <> TypeError.
Proof.
  destruct (attemptStereoPair_cases fb)
    as [[_ H] | [(f & fs & k & b & _ & _ & _ & H) | (f & fs & k & b & _ & _ & _ & H)]];
    rewrite H; discriminate.
Qed.

(** X3. Whatever pair the matcher hands over, the front frame was the head
    of the front buffer, the back frame was the first closest one, the two
    are at most 200 ms apart, and both have left their buffers: the front
    buffer lost its head and the back buffer exactly that one element. *)
Theorem attemptStereoPair_handoff_sound
        (fb fb' : FrameBuffers) (f b : FrameRecord) :
  attemptStereoPair fb = (fb', Call f b) ->
  front fb = f :: front fb' /\
  dt_of f b <= 200 /\
  exists k,
    first_closest f (back fb) k b /\
    back fb' = remove_at k (back fb) /\
    S (List.length (back fb')) = List.length (back fb).
Proof.
  intros Hres.
  destruct (attemptStereoPair_cases fb)
    as [[_ H] | [(f0 & fs & k & b0 & _ & _ & _ & H)
                | (f0 & fs & k & b0 & Hf & Hfc & Hle & H)]];
    rewrite H in Hres; inversion Hres; subst; clear Hres.
  cbn [front back]. split; [exact Hf |]. split; [exact Hle |].
  exists k. split; [exact Hfc |]. split; [reflexivity |].
  apply remove_at_length. destruct Hfc as (Hk & _).
  apply nth_error_Some. congruence.
Qed.

(** X4. When the matcher calls nothing, the back buffer is exactly as it
    was: back frames leave only as part of a pair.  The front buffer is as
    it was too, unless both buffers were non-empty and every back frame was
    more than 200 ms from the front head, which is then the one frame
    dropped. *)
Theorem attemptStereoPair_no_call_keeps_back
        (fb fb' : FrameBuffers) :
  attemptStereoPair fb = (fb', NoCall) ->
  back fb' = back fb /\
  (fb' = fb \/
   exists f, front fb = f :: front fb' /\ back fb <> [] /\
             forall b, In b (back fb) -> 200 < dt_of f b).
Proof.
  intros Hres.
  destruct (attemptStereoPair_cases fb)
    as [[_ H] | [(f & fs & k & b & Hf & Hfc & Hgt & H)
                | (f & fs & k & b & _ & _ & _ & H)]];
    rewrite H in Hres; inversion Hres; subst; clear Hres.
  - split; [reflexivity | now left].
  - cbn [front back]. split; [reflexivity |]. right.
    exists f. split; [exact Hf |].
    destruct Hfc as (Hk & Hmin & _). split.
    + intros He. rewrite He in Hk. now destruct k.
    + intros b' Hb'. specialize (Hmin b' Hb'). lia.
Qed.

End MatcherFacts.

(** ** The six slots, whatever the detector returns *)

Section SlotFacts.
Variable cal : Calibration.

Lemma numDetected_firstn6 (centersL centersR : list Point2) :
  numDetected (firstn 6 centersL) (firstn 6 centersR) = numDetected centersL centersR.
Proof. unfold numDetected. rewrite !length_firstn. lia. Qed.

(** X5. Detections past the sixth on either side are never looked at: the
    result is the one the first six left and the first six right centres
    give. *)
Theorem result3D_of_first_six (centersL centersR : list Point2) :
  result3D_of cal centersL centersR =
    result3D_of cal (firstn 6 centersL) (firstn 6 centersR).
Proof.
  rewrite !result3D_of_eq, numDetected_firstn6.
  do 2 f_equal. unfold real_entries.
  rewrite numDetected_firstn6, <- combine_firstn, firstn_firstn.
  pose proof (numDetected_bounds centersL centersR) as (_ & _ & H6).
  now rewrite Nat.min_l by exact H6.
Qed.

(** X6. When the detector finds nobody in one of the two images, all six
    slots are sentinels, whatever it found in the other. *)
Theorem result3D_of_one_side_empty (centersL centersR : list Point2) :
  centersL = [] \/ centersR = [] ->
  result3D_of cal centersL centersR = Some (repeat sentinel 6).
Proof.
  intros Hempty. rewrite result3D_of_eq.
  assert (Hn : numDetected centersL centersR = 0%nat).
  { unfold numDetected. destruct Hempty as [-> | ->]; simpl; lia. }
  unfold real_entries. now rewrite Hn.
Qed.

End SlotFacts.

(** ** What a reconstruction sends, and to whom *)

Lemma recipients_app (tr1 tr2 : list Event) :
  recipients (tr1 ++ tr2) = recipients tr1 ++ recipients tr2.
Proof. unfold recipients. apply flat_map_app. Qed.

Lemma recipients_deliveries (payload : Payload) (clis : list Socket) :
  recipients (deliveries payload clis) = clis.
Proof. induction clis as [| c clis IH]; simpl; [reflexivity | now rewrite IH]. Qed.

Lemma recipients_none (tr : list Event) :
  (forall e, In e tr -> is_sent e = false) -> recipients tr = [].
Proof.
  induction tr as [| e tr IH]; intros H; [reflexivity |].
  assert (IH' : recipients tr = []) by (apply IH; intros e' He'; apply H; now right).
  specialize (H e (or_introl eq_refl)).
  unfold recipients in *. cbn [flat_map]. rewrite IH'.
  destruct e; try reflexivity. discriminate.
Qed.

(** The loop serves the open sockets of the registry in order, up to where
    it stops. *)
Lemma broadcast_recipients_prefix (net : Net) (payload : Payload) (entries : Clients) :
  exists rest,
    filter (is_open net) (map fst entries) =
      recipients (trace (broadcast net payload entries)) ++ rest.
Proof.
  induction entries as [| [c rc] entries IH].
  - now exists [].
  - destruct IH as (rest & IH). cbn [map fst filter].
    destruct (is_open net c) eqn:Hc.
    + destruct (send_throws net c) eqn:Hs.
      * rewrite broadcast_cons_throws by assumption. now eexists.
      * rewrite broadcast_cons_sent by assumption.
        exists rest. cbn [trace fst]. simpl. now rewrite IH.
    + rewrite broadcast_cons_skipped by assumption. now exists rest.
Qed.

Lemma NoDup_app_l {A} (l1 l2 : list A) : NoDup (l1 ++ l2) -> NoDup l1.
Proof.
  induction l1 as [| a l1 IH]; simpl; intros H; [constructor |].
  inversion H; subst. constructor.
  - intros Hin. apply H2. apply in_or_app. now left.
  - now apply IH.
Qed.

Section DeliveryFacts.
Context {platform : Platform}.

(** The sockets one reconstruction sends to. *)
Lemma processStereoPair_recipients net srv imgLeftColor imgRightColor :
  exists rest,
    filter (is_open net) (map fst (clients srv)) =
      recipients (trace (processStereoPair net srv imgLeftColor imgRightColor)) ++ rest.
Proof.
  unfold processStereoPair. rewrite trace_try_catch_emit, recipients_app.
  destruct (processStereoPair_try_shape net srv imgLeftColor imgRightColor)
    as [(tr & Heq & Htr) | (centersL & centersR & Heq)].
  - rewrite Heq. cbn [trace outcome fst snd].
    rewrite (recipients_none tr).
    + now eexists.
    + intros e He. destruct (Htr e He) as (cam & ->). reflexivity.
  - cbv zeta in Heq. rewrite Heq. cbn [trace outcome fst snd].
    rewrite recipients_app. cbn [recipients flat_map app].
    fold (recipients (trace (broadcast net
      (payload_of (real_entries (calib srv) centersL centersR ++
                   repeat sentinel (6 - numDetected centersL centersR)))
      (clients srv)))).
    destruct (broadcast_recipients_prefix net
      (payload_of (real_entries (calib srv) centersL centersR ++
                   repeat sentinel (6 - numDetected centersL centersR)))
      (clients srv)) as (rest & Hrest).
    destruct (outcome _); cbn [recipients flat_map]; rewrite app_nil_r;
      now exists rest.
Qed.

(** X7. When anything before the broadcast throws (grayscale conversion,
    map computation, remapping, disparity, detection), nothing at all is
    sent: the failure is logged once and [processStereoPair] returns. *)
Theorem failed_reconstruction_sends_nothing
        (net : Net) (srv : Server) (imgLeftColor imgRightColor : Image) :
  outcome (detect_centers srv imgLeftColor imgRightColor) = Throws ->
  processStereoPair net srv imgLeftColor imgRightColor =
    (trace (detect_centers srv imgLeftColor imgRightColor) ++ [ConsoleError], Returns tt) /\
  recipients (trace (processStereoPair net srv imgLeftColor imgRightColor)) = [].
Proof.
  intros Hthrow.
  assert (Heq : processStereoPair net srv imgLeftColor imgRightColor =
                (trace (detect_centers srv imgLeftColor imgRightColor) ++ [ConsoleError],
                 Returns tt)).
  { unfold processStereoPair, processStereoPair_try.
    destruct (detect_centers srv imgLeftColor imgRightColor) as [tr [cs |]];
      [discriminate | reflexivity]. }
  split; [exact Heq |].
  rewrite Heq. cbn [trace fst]. rewrite recipients_app.
  destruct (detect_centers_cases srv imgLeftColor imgRightColor)
    as [(tr & Hdet & Htr) | (foundL & foundR & Hdet)].
  - rewrite Hdet. cbn [trace fst]. rewrite (recipients_none tr); [reflexivity |].
    intros e He. destruct (Htr e He) as (cam & ->). reflexivity.
  - rewrite Hdet in Hthrow. discriminate.
Qed.

(** X8. A reconstruction sends only to sockets that are in the registry
    and open at that moment (a closed or closing socket is skipped), and,
    the registry holding each socket once, to each of them at most once. *)
Theorem reconstruction_recipients_open_registered_once
        (net : Net) (srv : Server) (imgLeftColor imgRightColor : Image) :
  (forall cli,
     In cli (recipients (trace (processStereoPair net srv imgLeftColor imgRightColor))) ->
     In cli (map fst (clients srv)) /\ readyState net cli = ws_OPEN) /\
  (NoDup (map fst (clients srv)) ->
   NoDup (recipients (trace (processStereoPair net srv imgLeftColor imgRightColor)))).
Proof.
  destruct (processStereoPair_recipients net srv imgLeftColor imgRightColor)
    as (rest & Hrest).
  split.
  - intros cli Hin.
    assert (Hf : In cli (filter (is_open net) (map fst (clients srv)))).
    { rewrite Hrest. apply in_or_app. now left. }
    apply filter_In in Hf. destruct Hf as [Hreg Hopen].
    split; [exact Hreg |]. now apply Nat.eqb_eq.
  - intros Hnodup.
    apply (NoDup_app_l _ rest). rewrite <- Hrest.
    now apply NoDup_filter.
Qed.

End DeliveryFacts.

(** ** The registry as a map *)

Lemma map_get_set_same (k : Socket) (v : string) (m : Clients) :
  map_get k (map_set k v m) = Some v.
Proof.
  induction m as [| [k' v'] m IH]; simpl.
  - now rewrite Nat.eqb_refl.
  - destruct (Nat.eqb k k') eqn:E; simpl; rewrite ?Nat.eqb_refl, ?E; auto.
Qed.

Lemma map_get_set_other (k s : Socket) (v : string) (m : Clients) :
  s <> k -> map_get s (map_set k v m) = map_get s m.
Proof.
  intros Hne. induction m as [| [k' v'] m IH]; simpl.
  - apply Nat.eqb_neq in Hne. now rewrite Hne.
  - destruct (Nat.eqb k k') eqn:E; simpl.
    + apply Nat.eqb_eq in E. subst k'.
      apply Nat.eqb_neq in Hne. now rewrite Hne.
    + now rewrite IH.
Qed.

(** A socket already in the map keeps its place; a new one goes last. *)
Lemma map_set_keys (k : Socket) (v : string) (m : Clients) :
  (In k (map fst m) -> map fst (map_set k v m) = map fst m) /\
  (~ In k (map fst m) -> map fst (map_set k v m) = map fst m ++ [k]).
Proof.
  induction m as [| [k' v'] m [IHin IHout]]; simpl.
  - split; [intros [] | reflexivity].
  - destruct (Nat.eqb_spec k k') as [-> | Hne]; simpl.
    + split; [reflexivity | intros H; exfalso; apply H; now left].
    + split.
      * intros [Heq | Hin]; [congruence | now rewrite IHin].
      * intros Hout. rewrite IHout; [reflexivity |]. intros Hin. apply Hout. now right.
Qed.

Lemma map_set_NoDup (k : Socket) (v : string) (m : Clients) :
  NoDup (map fst m) -> NoDup (map fst (map_set k v m)).
Proof.
  intros Hnd. destruct (in_dec Nat.eq_dec k (map fst m)) as [Hin | Hout].
  - now rewrite (proj1 (map_set_keys k v m) Hin).
  - rewrite (proj2 (map_set_keys k v m) Hout).
    apply NoDup_app; [exact Hnd | repeat constructor; intros [] |].
    intros x Hx [<- | []]. now apply Hout.
Qed.

Lemma map_set_In (k s : Socket) (v r : string) (m : Clients) :
  In (s, r) (map_set k v m) -> (s = k /\ r = v) \/ (s <> k /\ In (s, r) m) \/ (s = k /\ In (s, r) m).
Proof.
  induction m as [| [k' v'] m IH]; simpl.
  - intros [H | []]. inversion H. now left.
  - destruct (Nat.eqb_spec k k') as [-> | Hne]; simpl.
    + intros [H | H]; [inversion H; now left |].
      destruct (Nat.eq_dec s k') as [-> | Hs]; [right; right | right; left]; auto.
    + intros [H | H].
      * inversion H; subst. right; left. split; [congruence | now left].
      * destruct (IH H) as [Hl | [[Hs Hin] | [Hs Hin]]]; auto.
Qed.

Lemma NoDup_keys_functional (m : Clients) (s : Socket) (r1 r2 : string) :
  NoDup (map fst m) -> In (s, r1) m -> In (s, r2) m -> r1 = r2.
Proof.
  induction m as [| [k v] m IH]; simpl; intros Hnd H1 H2; [destruct H1 |].
  inversion Hnd as [| ? ? Hk Hnd']; subst.
  destruct H1 as [H1 | H1], H2 as [H2 | H2].
  - congruence.
  - inversion H1; subst. exfalso. apply Hk. now apply (in_map fst) in H2.
  - inversion H2; subst. exfalso. apply Hk. now apply (in_map fst) in H1.
  - now apply IH.
Qed.

Lemma map_set_In_same (k : Socket) (v : string) (m : Clients) :
  In (k, v) (map_set k v m).
Proof.
  induction m as [| [k' v'] m IH]; simpl; [now left |].
  destruct (Nat.eqb k k'); [now left | now right].
Qed.

Lemma map_delete_In (k s : Socket) (r : string) (m : Clients) :
  In (s, r) (map_delete k m) -> In (s, r) m.
Proof.
  induction m as [| [k' v'] m IH]; simpl; [tauto |].
  destruct (Nat.eqb k k'); [now right |].
  intros [H | H]; [now left | right; now apply IH].
Qed.

Lemma map_delete_keys_In (k s : Socket) (m : Clients) :
  In s (map fst (map_delete k m)) -> In s (map fst m).
Proof.
  induction m as [| [k' v'] m IH]; simpl; [tauto |].
  destruct (Nat.eqb k k'); [now right |].
  intros [H | H]; [now left | right; now apply IH].
Qed.

Lemma map_delete_NoDup (k : Socket) (m : Clients) :
  NoDup (map fst m) -> NoDup (map fst (map_delete k m)).
Proof.
  induction m as [| [k' v'] m IH]; simpl; intros Hnd; [constructor |].
  inversion Hnd as [| ? ? Hk Hnd']; subst.
  destruct (Nat.eqb k k'); [exact Hnd' |].
  simpl. constructor; [| now apply IH].
  intros Hin. apply Hk. now apply (map_delete_keys_In k).
Qed.

Lemma map_delete_gone (k : Socket) (m : Clients) :
  NoDup (map fst m) -> ~ In k (map fst (map_delete k m)).
Proof.
  induction m as [| [k' v'] m IH]; simpl; intros Hnd; [tauto |].
  inversion Hnd as [| ? ? Hk Hnd']; subst.
  destruct (Nat.eqb_spec k k') as [-> | Hne]; [exact Hk |].
  simpl. intros [H | H]; [congruence | now apply IH].
Qed.

Lemma map_get_delete_other (k s : Socket) (m : Clients) :
  s <> k -> map_get s (map_delete k m) = map_get s m.
Proof.
  intros Hne. induction m as [| [k' v'] m IH]; simpl; [reflexivity |].
  destruct (Nat.eqb_spec k k') as [-> | Hk]; simpl.
  - apply Nat.eqb_neq in Hne. now rewrite Hne.
  - now rewrite IH.
Qed.

(** ** The handler, branch by branch *)

Lemma valid_role_eqb (r : string) :
  (String.eqb r "front" || String.eqb r "back") = true <-> valid_role r.
Proof.
  unfold valid_role. rewrite orb_true_iff, !String.eqb_eq. tauto.
Qed.

Section HandlerBranches.
Context {platform : Platform}.

(** Under the guard of line 105 the buffer of [myRole] exists. *)
Lemma push_frame_camera myRole fr fb :
  is_camera_role myRole = true ->
  (myRole = Some "front"%string /\
   push_frame myRole fr fb = Some {| front := front fb ++ [fr]; back := back fb |})
  \/
  (myRole = Some "back"%string /\
   push_frame myRole fr fb = Some {| front := front fb; back := back fb ++ [fr] |}).
Proof.
  destruct myRole as [r |]; [| discriminate]. simpl.
  destruct (String.eqb_spec r "front") as [-> | Hf]; [now left |].
  destruct (String.eqb_spec r "back") as [-> | Hb]; [now right | discriminate].
Qed.

(** [processStereoPair] always hands control back to its caller. *)
Lemma bind_processStereoPair_ret {A} net srv imgLeftColor imgRightColor (x : A) :
  (processStereoPair net srv imgLeftColor imgRightColor ;; ret x) =
    (trace (processStereoPair net srv imgLeftColor imgRightColor), Returns x).
Proof.
  pose proof (processStereoPair_returns net srv imgLeftColor imgRightColor) as Hret.
  destruct (processStereoPair net srv imgLeftColor imgRightColor) as [tr [[] |]];
    [| discriminate].
  cbn. now rewrite app_nil_r.
Qed.

(** Every way the handler can go, with what it returns. *)
Lemma on_message_branches net socket myRole data srv :
  (JSON_parse data = None /\
   on_message net socket myRole data srv = ([ConsoleError], Returns (myRole, srv)))
  \/
  (exists msg,
     JSON_parse data = Some msg /\ msg_type msg = "role"%string /\
     valid_role (msg_role msg) /\
     on_message net socket myRole data srv =
       ([ConsoleLog],
        Returns (Some (msg_role msg),
                 set_clients srv (map_set socket (msg_role msg) (clients srv)))))
  \/
  (exists msg,
     JSON_parse data = Some msg /\
     ((msg_type msg = "role"%string /\ ~ valid_role (msg_role msg)) \/
      (msg_type msg <> "role"%string /\
       (msg_type msg <> "frame"%string \/ is_camera_role myRole = false))) /\
     on_message net socket myRole data srv = ([], Returns (myRole, srv)))
  \/
  (exists msg,
     JSON_parse data = Some msg /\ msg_type msg = "frame"%string /\
     is_camera_role myRole = true /\ imdecode (msg_img msg) = None /\
     on_message net socket myRole data srv = ([ConsoleWarn], Returns (myRole, srv)))
  \/
  (exists msg m fb fb',
     JSON_parse data = Some msg /\ msg_type msg = "frame"%string /\
     is_camera_role myRole = true /\ imdecode (msg_img msg) = Some m /\
     push_frame myRole (frame_of msg m) (frameBuffers srv) = Some fb /\
     ((attemptStereoPair fb = (fb', NoCall) /\
       on_message net socket myRole data srv =
         ([], Returns (myRole, set_frameBuffers srv fb')))
      \/
      (exists f b,
         attemptStereoPair fb = (fb', Call f b) /\
         on_message net socket myRole data srv =
           (trace (processStereoPair net (set_frameBuffers srv fb') (matColor f) (matColor b)),
            Returns (myRole, set_frameBuffers srv fb'))))).
Proof.
  unfold on_message.
  destruct (JSON_parse data) as [msg |]; [| left; now split].
  right.
  destruct (String.eqb_spec (msg_type msg) "role") as [Hrole | Hnrole].
  { destruct (_ || _) eqn:Hvalid.
    - left. exists msg. apply valid_role_eqb in Hvalid. now repeat split.
    - right; left. exists msg. split; [reflexivity |]. split; [| reflexivity].
      left. split; [exact Hrole |]. rewrite <- valid_role_eqb. congruence. }
  right.
  destruct (String.eqb_spec (msg_type msg) "frame") as [Hframe | Hnframe];
    [| left; exists msg; cbn [andb]; now intuition].
  destruct (is_camera_role myRole) eqn:Hcam;
    [| left; exists msg; cbn [andb]; now intuition].
  right. cbn [andb].
  destruct (imdecode (msg_img msg)) as [m |] eqn:Hdec;
    [| left; exists msg; now repeat split].
  right.
  fold (frame_of msg m).
  assert (Hfb : exists fb, push_frame myRole (frame_of msg m) (frameBuffers srv) = Some fb).
  { destruct (push_frame_camera myRole (frame_of msg m) (frameBuffers srv) Hcam)
      as [[_ Hpush] | [_ Hpush]]; rewrite Hpush; now eexists. }
  destruct Hfb as (fb & Hpush). rewrite Hpush.
  destruct (attemptStereoPair_cases fb)
    as [[_ H] | [(f & fs & k & b & _ & _ & _ & H) | (f & fs & k & b & _ & _ & _ & H)]];
    rewrite H.
  - exists msg, m, fb, fb. repeat (split; [first [reflexivity | assumption] |]).
    left. split; [exact H | reflexivity].
  - exists msg, m, fb, {| front := fs; back := back fb |}.
    repeat (split; [first [reflexivity | assumption] |]).
    left. split; [exact H | reflexivity].
  - exists msg, m, fb, {| front := fs; back := remove_at k (back fb) |}.
    repeat (split; [first [reflexivity | assumption] |]).
    right. exists f, b. split; [exact H |].
    apply bind_processStereoPair_ret.
Qed.

End HandlerBranches.

(** ** The rectification: computed once, used by every reconstruction *)

Section RectificationFacts.
Context {platform : Platform}.

(** Remapping, disparity and detection leave nothing in the trace. *)
Lemma rectified_detection_silent grayL grayR imgLeftColor imgRightColor mapL mapR :
  trace (rectified_detection grayL grayR imgLeftColor imgRightColor mapL mapR) = [].
Proof.
  unfold rectified_detection.
  repeat
    match goal with
    | |- context [call ?o] =>
        lazymatch o with
        | Some _ => fail
        | None => fail
        | _ => destruct o; cbn [call bind ret throw app]
        end
    end;
    reflexivity.
Qed.

(** Detection, once both grey images are there: the left map from the
    cached [R1], [P1], then the right map from the cached [R2], [P2], then
    the rest on those two maps. *)
Lemma detect_centers_uses_cached srv imgLeftColor imgRightColor grayL grayR :
  bgrToGray imgLeftColor = Some grayL ->
  bgrToGray imgRightColor = Some grayR ->
  detect_centers srv imgLeftColor imgRightColor =
    match initUndistortRectifyMap (cameraMatrix1 (calib srv)) (distCoeffs1 (calib srv))
            (R1 (rectification srv)) (P1 (rectification srv)) (imageSize (calib srv)) with
    | None => ([CallInitUndistortRectifyMap LeftCam], Throws)
    | Some mapL =>
        match initUndistortRectifyMap (cameraMatrix2 (calib srv)) (distCoeffs2 (calib srv))
                (R2 (rectification srv)) (P2 (rectification srv)) (imageSize (calib srv)) with
        | None =>
            ([CallInitUndistortRectifyMap LeftCam; CallInitUndistortRectifyMap RightCam],
             Throws)
        | Some mapR =>
            ([CallInitUndistortRectifyMap LeftCam; CallInitUndistortRectifyMap RightCam],
             outcome (rectified_detection grayL grayR imgLeftColor imgRightColor mapL mapR))
        end
    end.
Proof.
  intros HL HR. unfold detect_centers, initMap. rewrite HL, HR, !bind_call_Some.
  destruct (initUndistortRectifyMap (cameraMatrix1 (calib srv)) _ _ _ _) as [mapL |];
    [| reflexivity].
  destruct (initUndistortRectifyMap (cameraMatrix2 (calib srv)) _ _ _ _) as [mapR |];
    [| reflexivity].
  pose proof (rectified_detection_silent grayL grayR imgLeftColor imgRightColor mapL mapR)
    as Hsilent.
  change (bind (bind (emit (CallInitUndistortRectifyMap LeftCam)) (fun _ => call (Some mapL)))
            (fun mapL0 =>
               bind (bind (emit (CallInitUndistortRectifyMap RightCam))
                          (fun _ => call (Some mapR)))
                    (fun mapR0 =>
                       rectified_detection grayL grayR imgLeftColor imgRightColor
                                           mapL0 mapR0)) =
          ([CallInitUndistortRectifyMap LeftCam; CallInitUndistortRectifyMap RightCam],
           outcome (rectified_detection grayL grayR imgLeftColor imgRightColor mapL mapR))).
  destruct (rectified_detection grayL grayR imgLeftColor imgRightColor mapL mapR)
    as [t o] eqn:E.
  cbn [trace fst] in Hsilent. subst t.
  cbn [bind emit call ret app outcome snd]. now rewrite E.
Qed.

(** The map computations of a reconstruction are those of its detection
    steps: the broadcast and the [catch] compute none. *)
Lemma processStereoPair_initMap_count net srv imgLeftColor imgRightColor cam :
  count (is_initMap cam) (trace (processStereoPair net srv imgLeftColor imgRightColor)) =
  count (is_initMap cam) (trace (detect_centers srv imgLeftColor imgRightColor)).
Proof.
  unfold processStereoPair. rewrite trace_try_catch_emit, count_app.
  destruct (detect_centers_cases srv imgLeftColor imgRightColor)
    as [(tr & Hdet & _) | (foundL & foundR & Hdet)].
  - unfold processStereoPair_try. rewrite Hdet. cbn [bind trace outcome fst snd].
    destruct cam; cbn; lia.
  - rewrite (processStereoPair_try_detected net srv _ _ _ _ _ Hdet), Hdet.
    cbn [trace outcome fst snd]. rewrite count_app.
    rewrite (count_none (is_initMap cam) (trace (broadcast _ _ _))).
    + destruct (outcome (broadcast _ _ _)); destruct cam; cbn; lia.
    + intros e He. apply broadcast_trace_in in He. destruct He as (cli & -> & _).
      now destruct cam.
Qed.

Lemma run_from_keeps_calibration net evs : forall st tr st',
  run_from net st evs = (tr, Returns st') ->
  calib (snd st') = calib (snd st) /\ rectification (snd st') = rectification (snd st).
Proof.
  induction evs as [| ev evs IH]; intros st tr st' H; cbn [run_from] in H.
  - inversion H; subst. now split.
  - apply bind_returns_inv in H. destruct H as (tr1 & st1 & tr2 & Hstep & Hrun & _).
    destruct (IH _ _ _ Hrun) as [Hc Hr]. rewrite Hc, Hr. clear IH Hrun Hc Hr.
    destruct st as [roles srv]. destruct ev as [socket data | socket]; cbn [step] in Hstep.
    + apply bind_returns_inv in Hstep.
      destruct Hstep as (tr3 & [r srv1] & tr4 & Hmsg & Hret & _).
      inversion Hret; subst. cbn [snd].
      apply (proj2 (on_message_cases net socket (roles socket) data srv) r srv1).
      now rewrite Hmsg.
    + cbn in Hstep. inversion Hstep; subst. now split.
Qed.

(** C7, as the code has it.  [cv.stereoRectify] is called once, at
    startup, in every run of the server; startup stores what it returned
    and computes no undistort/rectify map; every state the server reaches
    still holds that calibration and rectification, and the handler runs
    its reconstruction on them.  The maps are not cached: a reconstruction
    whose two grey conversions succeed calls [initUndistortRectifyMap] on
    the stored [R1], [P1] for the left map and, when that returns, on the
    stored [R2], [P2] for the right map, and goes on with the maps so
    obtained; [processStereoPair] computes no map besides. *)
Theorem stereoRectify_once_maps_every_pair :
  (forall net cal evs, count is_stereoRectify (trace (run net cal evs)) = 1%nat) /\
  (forall cal rect,
     stereoRectify (cameraMatrix1 cal) (distCoeffs1 cal) (cameraMatrix2 cal)
                   (distCoeffs2 cal) (imageSize cal) (R cal) (T cal) = Some rect ->
     startup cal =
       ([CallStereoRectify],
        Returns {| calib := cal; rectification := rect;
                   frameBuffers := {| front := []; back := [] |}; clients := [] |})) /\
  (forall net cal evs rect roles srv,
     stereoRectify (cameraMatrix1 cal) (distCoeffs1 cal) (cameraMatrix2 cal)
                   (distCoeffs2 cal) (imageSize cal) (R cal) (T cal) = Some rect ->
     outcome (run net cal evs) = Returns (roles, srv) ->
     calib srv = cal /\ rectification srv = rect) /\
  (forall net socket myRole data srv,
     (forall e, In e (trace (on_message net socket myRole data srv)) ->
                e = ConsoleError \/ e = ConsoleWarn \/ e = ConsoleLog)
     \/
     (exists srv2 frontFrame backFrame,
        calib srv2 = calib srv /\ rectification srv2 = rectification srv /\
        trace (on_message net socket myRole data srv) =
          trace (processStereoPair net srv2 (matColor frontFrame) (matColor backFrame)))) /\
  (forall srv imgLeftColor imgRightColor grayL grayR,
     bgrToGray imgLeftColor = Some grayL ->
     bgrToGray imgRightColor = Some grayR ->
     detect_centers srv imgLeftColor imgRightColor =
       match initUndistortRectifyMap (cameraMatrix1 (calib srv)) (distCoeffs1 (calib srv))
               (R1 (rectification srv)) (P1 (rectification srv)) (imageSize (calib srv)) with
       | None => ([CallInitUndistortRectifyMap LeftCam], Throws)
       | Some mapL =>
           match initUndistortRectifyMap (cameraMatrix2 (calib srv)) (distCoeffs2 (calib srv))
                   (R2 (rectification srv)) (P2 (rectification srv)) (imageSize (calib srv)) with
           | None =>
               ([CallInitUndistortRectifyMap LeftCam; CallInitUndistortRectifyMap RightCam],
                Throws)
           | Some mapR =>
               ([CallInitUndistortRectifyMap LeftCam; CallInitUndistortRectifyMap RightCam],
                outcome (rectified_detection grayL grayR imgLeftColor imgRightColor
                                             mapL mapR))
           end
       end) /\
  (forall net srv imgLeftColor imgRightColor cam,
     count (is_initMap cam) (trace (processStereoPair net srv imgLeftColor imgRightColor)) =
     count (is_initMap cam) (trace (detect_centers srv imgLeftColor imgRightColor))).
Proof.
  split; [| split; [| split; [| split; [| split]]]].
  - intros net cal evs. unfold run.
    rewrite trace_bind, count_app, startup_trace.
    destruct (outcome (startup cal)) as [srv |]; [| reflexivity].
    rewrite bind_emit. cbn [trace fst].
    change (ConsoleLog :: ?l) with ([ConsoleLog] ++ l). rewrite count_app.
    rewrite (count_none is_stereoRectify (trace (run_from _ _ _)));
      [reflexivity | apply run_from_no_stereoRectify].
  - intros cal rect Hrect. unfold startup. rewrite Hrect, bind_emit, bind_call_Some.
    reflexivity.
  - intros net cal evs rect roles srv Hrect Hout. unfold run, startup in Hout.
    rewrite Hrect, bind_emit, bind_call_Some in Hout.
    cbn [ret trace outcome fst snd bind] in Hout. rewrite bind_emit in Hout.
    destruct (run_from net _ evs) as [tr o] eqn:Hrun.
    cbn [trace outcome fst snd] in Hout. subst o.
    apply run_from_keeps_calibration in Hrun. exact Hrun.
  - intros net socket myRole data srv.
    destruct (on_message_branches net socket myRole data srv)
      as [[_ H] | [(msg & _ & _ & _ & H) | [(msg & _ & _ & H) | [(msg & _ & _ & _ & _ & H)
         | (msg & m & fb & fb' & _ & _ & _ & _ & _ & [[_ H] | (f & b & _ & H)])]]]];
      rewrite H; cbn [trace fst];
      try (left; intros e He; cbn in He; now intuition (subst; auto)).
    right. exists (set_frameBuffers srv fb'), f, b. now repeat split.
  - apply detect_centers_uses_cached.
  - apply processStereoPair_initMap_count.
Qed.

End RectificationFacts.

(** ** What one message can do *)

Section HandlerExtras.
Context {platform : Platform}.


(** X10. A message that is not a role message leaves the connection's
    role and the registry alone; a message that is not a frame message
    leaves both frame buffers alone. *)
Theorem message_kind_limits_what_changes
        (net : Net) (socket : Socket) (myRole : option string)
        (data : string) (srv : Server) (r : option string) (srv' : Server) :
  outcome (on_message net socket myRole data srv) = Returns (r, srv') ->
  ((forall msg, JSON_parse data = Some msg -> msg_type msg <> "role"%string) ->
   r = myRole /\ clients srv' = clients srv) /\
  ((forall msg, JSON_parse data = Some msg -> msg_type msg <> "frame"%string) ->
   frameBuffers srv' = frameBuffers srv).
Proof.
  intros Hout.
  destruct (on_message_branches net socket myRole data srv)
    as [[_ H] | [(msg & Hp & Ht & _ & H) | [(msg & _ & _ & H) | [(msg & _ & _ & _ & _ & H)
       | (msg & m & fb & fb' & Hp & Ht & _ & _ & _ & [[_ H] | (f & b & _ & H)])]]]];
    rewrite H in Hout; inversion Hout; subst; clear Hout;
    (split; [intros Hkind | intros Hkind]);
    try (split; reflexivity); try reflexivity;
    exfalso; now apply (Hkind msg Hp).
Qed.

(** X11. A connection without a role can neither put anything into the
    buffers nor cause anything to be sent, whatever it sends; only a role
    message changes that. *)
Theorem connection_without_role_cannot_feed_frames
        (net : Net) (socket : Socket) (myRole : option string)
        (data : string) (srv : Server) (r : option string) (srv' : Server) :
  is_camera_role myRole = false ->
  outcome (on_message net socket myRole data srv) = Returns (r, srv') ->
  frameBuffers srv' = frameBuffers srv /\
  recipients (trace (on_message net socket myRole data srv)) = [].
Proof.
  intros Hrole Hout.
  destruct (on_message_branches net socket myRole data srv)
    as [[_ H] | [(msg & _ & _ & _ & H) | [(msg & _ & _ & H) | [(msg & _ & _ & Hc & _ & H)
       | (msg & m & fb & fb' & _ & _ & Hc & _)]]]];
    try congruence;
    rewrite H in Hout |- *; inversion Hout; subst; clear Hout; now split.
Qed.

(** X12. Bad input is logged and dropped.  Data that does not parse costs
    one [console.error]; a frame whose image does not decode costs one
    [console.warn]; in both cases role, registry and buffers stay as they
    were. *)
Theorem bad_input_is_logged_and_dropped
        (net : Net) (socket : Socket) (myRole : option string)
        (data : string) (srv : Server) :
  (JSON_parse data = None ->
   on_message net socket myRole data srv = ([ConsoleError], Returns (myRole, srv))) /\
  (forall msg,
     JSON_parse data = Some msg ->
     msg_type msg = "frame"%string ->
     is_camera_role myRole = true ->
     imdecode (msg_img msg) = None ->
     on_message net socket myRole data srv = ([ConsoleWarn], Returns (myRole, srv))).
Proof.
  split.
  - intros Hp. unfold on_message. now rewrite Hp.
  - intros msg Hp Ht Hc Hd. unfold on_message.
    rewrite Hp, Ht, Hc, Hd. reflexivity.
Qed.

(** X13. A role message naming [front] or [back] sets the connection's
    role to it whatever the role was before (a second registration
    overwrites the first) and records it in the registry: the socket now
    maps to the new role, every other socket maps to what it did, a socket
    already registered keeps its place in the broadcast order and a new one
    goes last.  The buffers are not touched. *)
Theorem role_message_registers
        (net : Net) (socket : Socket) (myRole : option string)
        (data : string) (srv : Server) (msg : Msg) :
  JSON_parse data = Some msg ->
  msg_type msg = "role"%string ->
  valid_role (msg_role msg) ->
  exists srv',
    on_message net socket myRole data srv = ([ConsoleLog], Returns (Some (msg_role msg), srv')) /\
    map_get socket (clients srv') = Some (msg_role msg) /\
    (forall s, s <> socket -> map_get s (clients srv') = map_get s (clients srv)) /\
    (In socket (map fst (clients srv)) ->
     map fst (clients srv') = map fst (clients srv)) /\
    (~ In socket (map fst (clients srv)) ->
     map fst (clients srv') = map fst (clients srv) ++ [socket]) /\
    frameBuffers srv' = frameBuffers srv.
Proof.
  intros Hp Ht Hv.
  exists (set_clients srv (map_set socket (msg_role msg) (clients srv))).
  split.
  { unfold on_message. rewrite Hp, Ht. cbn [String.eqb Ascii.eqb Bool.eqb].
    apply valid_role_eqb in Hv. now rewrite Hv. }
  cbn [set_clients clients frameBuffers].
  split; [apply map_get_set_same |].
  split; [intros s Hs; now apply map_get_set_other |].
  split; [apply map_set_keys | split; [apply map_set_keys | reflexivity]].
Qed.

(** X14. A frame that finds the other buffer empty is appended to the tail
    of its own buffer and nothing else happens.  In particular back frames
    pile up, in arrival order, for as long as no front frame comes. *)
Theorem frame_waits_when_other_buffer_empty
        (net : Net) (socket : Socket) (data : string) (srv : Server)
        (msg : Msg) (m : Image) :
  JSON_parse data = Some msg ->
  msg_type msg = "frame"%string ->
  imdecode (msg_img msg) = Some m ->
  (back (frameBuffers srv) = [] ->
   on_message net socket (Some "front"%string) data srv =
     ([], Returns (Some "front"%string,
                   set_frameBuffers srv
                     {| front := front (frameBuffers srv) ++ [frame_of msg m];
                        back := [] |}))) /\
  (front (frameBuffers srv) = [] ->
   on_message net socket (Some "back"%string) data srv =
     ([], Returns (Some "back"%string,
                   set_frameBuffers srv
                     {| front := [];
                        back := back (frameBuffers srv) ++ [frame_of msg m] |}))).
Proof.
  intros Hp Ht Hd.
  split; intros Hempty; unfold on_message; rewrite Hp, Ht, Hd;
    cbn [String.eqb Ascii.eqb Bool.eqb andb orb is_camera_role push_frame];
    fold (frame_of msg m); rewrite Hempty.
  - assert (H : attemptStereoPair
                  {| front := front (frameBuffers srv) ++ [frame_of msg m]; back := [] |} =
                ({| front := front (frameBuffers srv) ++ [frame_of msg m]; back := [] |},
                 NoCall)).
    { destruct (attemptStereoPair_cases
                  {| front := front (frameBuffers srv) ++ [frame_of msg m]; back := [] |})
        as [[_ H] | [(f & fs & k & b & _ & (Hk & _) & _) | (f & fs & k & b & _ & (Hk & _) & _)]];
        [exact H | now destruct k | now destruct k]. }
    now rewrite H.
  - reflexivity.
Qed.

End HandlerExtras.

(** ** The event loop *)

Section LoopFacts.
Context {platform : Platform}.

Lemma set_role_same (roles : Roles) (socket s : Socket) :
  set_role roles socket (roles socket) s = roles s.
Proof. unfold set_role. now destruct (Nat.eqb_spec s socket) as [-> |]. Qed.

Lemma registry_ok_same_role roles socket srv :
  registry_ok roles srv -> registry_ok (set_role roles socket (roles socket)) srv.
Proof.
  intros [Hnd Hent]. split; [exact Hnd |].
  intros s r Hin. rewrite set_role_same. now apply Hent.
Qed.

Lemma registry_ok_register roles socket role srv :
  valid_role role ->
  registry_ok roles srv ->
  registry_ok (set_role roles socket (Some role))
              (set_clients srv (map_set socket role (clients srv))).
Proof.
  intros Hv [Hnd Hent]. split; cbn [set_clients clients].
  - now apply map_set_NoDup.
  - intros s r Hin. unfold set_role.
    destruct (Nat.eqb_spec s socket) as [-> | Hne].
    + assert (r = role).
      { apply (NoDup_keys_functional (map_set socket role (clients srv)) socket);
          [now apply map_set_NoDup | exact Hin | apply map_set_In_same]. }
      subst r. now split.
    + apply map_set_In in Hin.
      destruct Hin as [[Hs _] | [[_ Hin] | [Hs _]]]; [congruence | now apply Hent | congruence].
Qed.

Lemma registry_ok_close roles socket srv :
  registry_ok roles srv ->
  registry_ok roles (set_clients srv (map_delete socket (clients srv))).
Proof.
  intros [Hnd Hent]. split; cbn [set_clients clients].
  - now apply map_delete_NoDup.
  - intros s r Hin. apply Hent. now apply (map_delete_In socket).
Qed.

(** One inbound event, as [step] has it: it returns, and the registry
    stays well formed. *)
Lemma step_registry_ok net roles srv ev :
  registry_ok roles srv ->
  exists tr roles' srv',
    step net (roles, srv) ev = (tr, Returns (roles', srv')) /\
    registry_ok roles' srv'.
Proof.
  intros Hok. destruct ev as [socket data | socket]; cbn [step].
  - destruct (on_message_branches net socket (roles socket) data srv)
      as [[_ H] | [(msg & _ & _ & Hv & H) | [(msg & _ & _ & H) | [(msg & _ & _ & _ & _ & H)
         | (msg & m & fb & fb' & _ & _ & _ & _ & _ & [[_ H] | (f & b & _ & H)])]]]];
      rewrite H; cbn [bind ret fst snd]; do 3 eexists; (split; [reflexivity |]);
      try (now apply registry_ok_same_role);
      try (now apply registry_ok_register);
      destruct (registry_ok_same_role roles socket srv Hok) as [Hnd Hent];
      (split; [exact Hnd | exact Hent]).
  - unfold on_close. cbn. do 3 eexists. split; [reflexivity |].
    now apply registry_ok_close.
Qed.

Lemma run_from_registry_ok net evs : forall roles srv,
  registry_ok roles srv ->
  exists tr roles' srv',
    run_from net (roles, srv) evs = (tr, Returns (roles', srv')) /\
    registry_ok roles' srv'.
Proof.
  induction evs as [| ev evs IH]; intros roles srv Hok; cbn [run_from].
  - exists [], roles, srv. now split.
  - destruct (step_registry_ok net roles srv ev Hok) as (tr1 & roles1 & srv1 & Hstep & Hok1).
    destruct (IH roles1 srv1 Hok1) as (tr2 & roles2 & srv2 & Hrun & Hok2).
    rewrite Hstep. cbn [bind]. rewrite Hrun.
    exists (tr1 ++ tr2), roles2, srv2. now split.
Qed.

Lemma registry_ok_initial roles cal rect :
  registry_ok roles {| calib := cal; rectification := rect;
                       frameBuffers := {| front := []; back := [] |}; clients := [] |}.
Proof. split; [apply NoDup_nil | intros s r []]. Qed.

(** X16. In every state the server reaches, the registry holds each socket
    at most once, every role in it is [front] or [back], and the role it
    holds for a socket is the [myRole] of that socket's connection. *)
Theorem reachable_registry_well_formed
        (net : Net) (cal : Calibration) (evs : list Inbound)
        (roles : Roles) (srv : Server) :
  outcome (run net cal evs) = Returns (roles, srv) ->
  NoDup (map fst (clients srv)) /\
  forall s r, In (s, r) (clients srv) -> valid_role r /\ roles s = Some r.
Proof.
  unfold run, startup. rewrite bind_emit.
  destruct (stereoRectify _ _ _ _ _ _ _) as [rect |]; [| discriminate].
  rewrite bind_call_Some. cbn [ret trace outcome fst snd bind].
  match goal with
  | |- context [run_from net (?roles0, ?srv0) evs] =>
      destruct (run_from_registry_ok net evs roles0 srv0 (registry_ok_initial _ _ _))
        as (tr & roles' & srv' & Hrun & Hok)
  end.
  unfold Roles in *. rewrite Hrun. cbn. intros H. inversion H; subst. exact Hok.
Qed.

(** X17. When a connection closes, its socket leaves the registry (so no
    later reconstruction is sent to it) and every other socket keeps its
    role; the frames the connection had sent stay in the buffers. *)
Theorem close_unregisters_socket (socket : Socket) (srv : Server) :
  NoDup (map fst (clients srv)) ->
  exists srv',
    on_close socket srv = ([ConsoleLog], Returns srv') /\
    ~ In socket (map fst (clients srv')) /\
    map_get socket (clients srv') = None /\
    (forall s, s <> socket -> map_get s (clients srv') = map_get s (clients srv)) /\
    frameBuffers srv' = frameBuffers srv.
Proof.
  intros Hnd. eexists. split; [reflexivity |].
  cbn [set_clients clients frameBuffers].
  assert (Hgone := map_delete_gone socket (clients srv) Hnd).
  split; [exact Hgone |]. split; [| split; [| reflexivity]].
  - clear Hnd. induction (map_delete socket (clients srv)) as [| [k v] m IH];
      [reflexivity |].
    simpl in *. destruct (Nat.eqb_spec socket k) as [-> | Hne].
    + exfalso. apply Hgone. now left.
    + apply IH. intros Hin. apply Hgone. now right.
  - intros s Hs. now apply map_get_delete_other.
Qed.

(** X18. One inbound message causes at most one reconstruction to be
    sent: with each socket once in the registry, no socket is sent more
    than one message while the handler runs, and whoever is sent one is
    registered and open. *)
Theorem one_message_one_delivery_each
        (net : Net) (socket : Socket) (myRole : option string)
        (data : string) (srv : Server) :
  NoDup (map fst (clients srv)) ->
  NoDup (recipients (trace (on_message net socket myRole data srv))) /\
  forall cli,
    In cli (recipients (trace (on_message net socket myRole data srv))) ->
    In cli (map fst (clients srv)) /\ readyState net cli = ws_OPEN.
Proof.
  intros Hnd.
  destruct (on_message_branches net socket myRole data srv)
    as [[_ H] | [(msg & _ & _ & _ & H) | [(msg & _ & _ & H) | [(msg & _ & _ & _ & _ & H)
       | (msg & m & fb & fb' & _ & _ & _ & _ & _ & [[_ H] | (f & b & _ & H)])]]]];
    rewrite H; cbn [trace fst];
    try (split; [constructor | intros cli []]).
  destruct (processStereoPair_recipients net (set_frameBuffers srv fb')
              (matColor f) (matColor b)) as (rest & Hrest).
  cbn [set_frameBuffers clients] in Hrest.
  split.
  - apply (NoDup_app_l _ rest). rewrite <- Hrest. now apply NoDup_filter.
  - intros cli Hin.
    assert (Hf : In cli (filter (is_open net) (map fst (clients srv)))).
    { rewrite Hrest. apply in_or_app. now left. }
    apply filter_In in Hf. destruct Hf as [Hreg Hopen].
    split; [exact Hreg | now apply Nat.eqb_eq].
Qed.

End LoopFacts.

(** ** Frames in, frames out *)

Section BufferFacts.
Context {platform : Platform}.

(** How many frames are waiting. *)
Lemma attemptStereoPair_buffered fb :
  let n := (List.length (front fb) + List.length (back fb))%nat in
  let fb' := fst (attemptStereoPair fb) in
  let n' := (List.length (front fb') + List.length (back fb'))%nat in
  (n' <= n /\ n <= n' + 2)%nat.
Proof.
  cbv zeta.
  destruct (attemptStereoPair_cases fb)
    as [[_ H] | [(f & fs & k & b & Hf & _ & _ & H) | (f & fs & k & b & Hf & (Hk & _) & _ & H)]];
    rewrite H; cbn [fst front back]; rewrite ?Hf; cbn [List.length]; try lia.
  assert (Hlt : (k < List.length (back fb))%nat) by (apply nth_error_Some; congruence).
  pose proof (remove_at_length (back fb) k Hlt). lia.
Qed.

(** X22. One message changes the number of buffered frames by at most
    one: a frame adds itself, and the matcher it triggers then takes out
    nothing, one stale front frame, or one pair. *)
Theorem one_message_moves_at_most_one_frame
        (net : Net) (socket : Socket) (myRole : option string)
        (data : string) (srv : Server) (r : option string) (srv' : Server) :
  outcome (on_message net socket myRole data srv) = Returns (r, srv') ->
  let n := (List.length (front (frameBuffers srv)) +
            List.length (back (frameBuffers srv)))%nat in
  let n' := (List.length (front (frameBuffers srv')) +
             List.length (back (frameBuffers srv')))%nat in
  (n' <= n + 1 /\ n <= n' + 1)%nat.
Proof.
  intros Hout; cbv zeta.
  destruct (on_message_branches net socket myRole data srv)
    as [[_ H] | [(msg & _ & _ & _ & H) | [(msg & _ & _ & H) | [(msg & _ & _ & _ & _ & H)
       | (msg & m & fb & fb' & _ & _ & Hc & _ & Hpush & Hm)]]]];
    try (rewrite H in Hout; inversion Hout; subst; cbn [set_clients frameBuffers]; lia).
  assert (Hfb : (List.length (front fb) + List.length (back fb) =
                 S (List.length (front (frameBuffers srv)) +
                    List.length (back (frameBuffers srv))))%nat).
  { destruct (push_frame_camera myRole (frame_of msg m) (frameBuffers srv) Hc)
      as [[_ Hp] | [_ Hp]]; rewrite Hp in Hpush; inversion Hpush; subst;
      cbn [front back]; rewrite length_app; cbn [List.length]; lia. }
  pose proof (attemptStereoPair_buffered fb) as Hcount. cbv zeta in Hcount.
  destruct Hm as [[Hatt H] | (f & b & Hatt & H)];
    rewrite Hatt in Hcount; cbn [fst] in Hcount;
    rewrite H in Hout; inversion Hout; subst; cbn [set_frameBuffers frameBuffers]; lia.
Qed.

(** X23. End to end: with one front frame [f] waiting and the back buffer
    empty, a back frame that decodes and is at most 200 ms from [f]
    empties both buffers and starts one reconstruction, with the front
    image as the left image and the back image as the right one. *)
Theorem back_frame_completes_pair
        (net : Net) (socket : Socket) (data : string) (srv : Server)
        (msg : Msg) (m : Image) (f : FrameRecord) :
  JSON_parse data = Some msg ->
  msg_type msg = "frame"%string ->
  imdecode (msg_img msg) = Some m ->
  frameBuffers srv = {| front := [f]; back := [] |} ->
  Z.abs (msg_timestamp msg - timestamp f) <= 200 ->
  let srv' := set_frameBuffers srv {| front := []; back := [] |} in
  on_message net socket (Some "back"%string) data srv =
    (trace (processStereoPair net srv' (matColor f) m), Returns (Some "back"%string, srv')).
Proof.
  intros Hp Ht Hd Hbuf Hdt srv'. unfold on_message. rewrite Hp, Ht, Hd.
  cbn [String.eqb Ascii.eqb Bool.eqb andb orb is_camera_role push_frame].
  fold (frame_of msg m). rewrite Hbuf. cbn [front back app].
  rewrite (attemptStereoPair_paired
             {| front := [f]; back := [frame_of msg m] |} f [] 0%nat (frame_of msg m)).
  - cbn [back remove_at firstn skipn app]. fold srv'.
    apply (bind_processStereoPair_ret net srv' (matColor f) (matColor (frame_of msg m))).
  - reflexivity.
  - discriminate.
  - repeat split.
    + intros b' [<- | []]. lia.
    + intros j b' Hj. lia.
  - exact Hdt.
Qed.

End BufferFacts.

(** ** The relay server *)

Section RelayFacts.
Variable net : Net.
Variable ws : Socket.
Variable message : string.

Lemma relay_forward_cons_target client rest :
  Relay.is_target net ws client = true -> send_throws net client = false ->
  Relay.forward net ws message (client :: rest) =
    (Relay.Forwarded client message :: fst (Relay.forward net ws message rest),
     snd (Relay.forward net ws message rest)).
Proof.
  intros Ht Hs. unfold Relay.is_target in Ht. cbn [Relay.forward].
  rewrite Ht, Hs. now destruct (Relay.forward net ws message rest).
Qed.

Lemma relay_forward_cons_throws client rest :
  Relay.is_target net ws client = true -> send_throws net client = true ->
  Relay.forward net ws message (client :: rest) = ([], Throws).
Proof.
  intros Ht Hs. unfold Relay.is_target in Ht. cbn [Relay.forward].
  now rewrite Ht, Hs.
Qed.

Lemma relay_forward_cons_skip client rest :
  Relay.is_target net ws client = false ->
  Relay.forward net ws message (client :: rest) = Relay.forward net ws message rest.
Proof.
  intros Ht. unfold Relay.is_target in Ht. cbn [Relay.forward]. now rewrite Ht.
Qed.

Lemma relay_forward_in clients e :
  In e (fst (Relay.forward net ws message clients)) ->
  exists client,
    e = Relay.Forwarded client message /\ In client clients /\
    Relay.is_target net ws client = true.
Proof.
  induction clients as [| c clients IH]; intros Hin; [destruct Hin |].
  destruct (Relay.is_target net ws c) eqn:Ht.
  - destruct (send_throws net c) eqn:Hs.
    + rewrite relay_forward_cons_throws in Hin by assumption. destruct Hin.
    + rewrite relay_forward_cons_target in Hin by assumption.
      destruct Hin as [<- | Hin].
      * exists c. repeat split; [now left | exact Ht].
      * destruct (IH Hin) as (client & -> & Hc & Htc).
        exists client. repeat split; [now right | exact Htc].
  - rewrite relay_forward_cons_skip in Hin by assumption.
    destruct (IH Hin) as (client & -> & Hc & Htc).
    exists client. repeat split; [now right | exact Htc].
Qed.

(** X19. The relay passes on exactly what it received, and only to
    connected clients that are open and are not the sender: the sender
    never gets its own message back. *)
Theorem relay_forwards_only_to_other_open_clients
        (clients : list Socket) (client : Socket) (m : string) :
  In (Relay.Forwarded client m) (fst (Relay.on_message net clients ws message)) ->
  m = message /\ client <> ws /\ In client clients /\ readyState net client = ws_OPEN.
Proof.
  unfold Relay.on_message.
  destruct (Relay.forward net ws message clients) as [out o] eqn:E.
  cbn [fst]. intros [Hin | Hin]; [discriminate |].
  assert (Hin' : In (Relay.Forwarded client m) (fst (Relay.forward net ws message clients)))
    by now rewrite E.
  apply relay_forward_in in Hin'. destruct Hin' as (c & Heq & Hc & Ht).
  inversion Heq; subst.
  unfold Relay.is_target in Ht. apply andb_true_iff in Ht. destruct Ht as [Hne Hopen].
  apply negb_true_iff, Nat.eqb_neq in Hne. apply Nat.eqb_eq in Hopen.
  now repeat split.
Qed.

(** X20. When no [send] throws, the relay logs the message and sends it,
    unchanged and once each, to every other open client, in the order the
    clients connected, and returns. *)
Theorem relay_reaches_every_other_open_client (clients : list Socket) :
  (forall c, In c clients -> Relay.is_target net ws c = true -> send_throws net c = false) ->
  Relay.on_message net clients ws message =
    (Relay.Logged message ::
       map (fun c => Relay.Forwarded c message) (filter (Relay.is_target net ws) clients),
     Returns tt).
Proof.
  intros Hok. unfold Relay.on_message.
  assert (H : Relay.forward net ws message clients =
              (map (fun c => Relay.Forwarded c message)
                   (filter (Relay.is_target net ws) clients), Returns tt)).
  { induction clients as [| c clients IH]; [reflexivity |].
    assert (IH' := IH (fun c' Hin => Hok c' (or_intror Hin))).
    cbn [filter]. destruct (Relay.is_target net ws c) eqn:Ht.
    - rewrite relay_forward_cons_target;
        [| exact Ht | apply Hok; [now left | exact Ht]].
      now rewrite IH'.
    - now rewrite relay_forward_cons_skip. }
  now rewrite H.
Qed.

(** X21. Nothing in the relay catches a throwing [send]: the clients
    before the one whose [send] throws have the message, the clients after
    it do not, and the exception leaves the handler. *)
Theorem relay_send_failure_escapes
        (before : list Socket) (client : Socket) (rest : list Socket) :
  (forall c, In c before -> Relay.is_target net ws c = true -> send_throws net c = false) ->
  Relay.is_target net ws client = true ->
  send_throws net client = true ->
  Relay.on_message net (before ++ client :: rest) ws message =
    (Relay.Logged message ::
       map (fun c => Relay.Forwarded c message) (filter (Relay.is_target net ws) before),
     Throws).
Proof.
  intros Hok Ht Hs. unfold Relay.on_message.
  assert (H : Relay.forward net ws message (before ++ client :: rest) =
              (map (fun c => Relay.Forwarded c message)
                   (filter (Relay.is_target net ws) before), Throws)).
  { induction before as [| c before IH]; simpl app.
    - now apply relay_forward_cons_throws.
    - assert (IH' := IH (fun c' Hin => Hok c' (or_intror Hin))).
      cbn [filter]. destruct (Relay.is_target net ws c) eqn:Htc.
      + rewrite relay_forward_cons_target;
          [| exact Htc | apply Hok; [now left | exact Htc]].
        now rewrite IH'.
      + now rewrite relay_forward_cons_skip. }
  now rewrite H.
Qed.

End RelayFacts.

(* ===================================================================== *)
(** * Runs on the concrete platform *)
(* ===================================================================== *)

Import Demo.
Local Open Scope nat_scope.
Local Open Scope string_scope.

(** ** The pairing examples *)

(** Front frame at 1000, back frames at 900, 1150 and 1300: the frame at
    900 is taken, the other two stay. *)
Lemma pairs_first_closest_witness :
  attemptStereoPair {| front := [fr 1000]; back := [fr 900; fr 1150; fr 1300] |} =
    ({| front := []; back := [fr 1150; fr 1300] |}, Call (fr 1000) (fr 900)).
Proof.
  refine (proj2 (attemptStereoPair_pairs_first_closest
                   {| front := [fr 1000]; back := [fr 900; fr 1150; fr 1300] |}
                   (fr 1000) [] eq_refl _) 0%nat (fr 900) _ _).
  - discriminate.
  - repeat split.
    + intros b' [<- | [<- | [<- | []]]]; cbn; lia.
    + intros j b' Hj. lia.
  - cbn. lia.
Defined.

(** Two back frames equally close (900 and 1100): the one that arrived
    first is taken. *)
Example tie_goes_to_first_arrived :
  attemptStereoPair {| front := [fr 1000]; back := [fr 1100; fr 900] |} =
    ({| front := []; back := [fr 900] |}, Call (fr 1000) (fr 1100)).
Proof. reflexivity. Qed.

(** Front frame at 1000, one back frame at 1300: the front frame goes, the
    back buffer stays, nothing is handed over. *)
Lemma drops_stale_front_witness :
  attemptStereoPair {| front := [fr 1000]; back := [fr 1300] |} =
    ({| front := []; back := [fr 1300] |}, NoCall).
Proof.
  apply (attemptStereoPair_drops_stale_front
           {| front := [fr 1000]; back := [fr 1300] |} (fr 1000) []).
  - reflexivity.
  - discriminate.
  - intros b [<- | []]. cbn. lia.
Defined.

(** With an empty back buffer the matcher does nothing at all. *)
Example empty_back_buffer_is_left_alone :
  attemptStereoPair {| front := [fr 1000]; back := [] |} =
    ({| front := [fr 1000]; back := [] |}, NoCall).
Proof. reflexivity. Qed.

(** ** The triangulation examples *)

Example centers_of_imgL : centers imgL = [pt 200 120; pt 90 100].
Proof. reflexivity. Qed.

Example result_of_demo_pair :
  result3D_of cal (centers imgL) (centers imgR) = Some (payload_data payload0).
Proof. reflexivity. Qed.

(** Slot 0 of the demo pair: d = 200 - 180 = 20, Z = 500 * 0.125 / 20. *)
Lemma positive_disparity_witness :
  exists result3D,
    result3D_of cal (centers imgL) (centers imgR) = Some result3D /\
    nth_error result3D 0 = Some {| pos_x := 0.25; pos_y := 0; pos_z := 3.125 |}.
Proof.
  refine (triangulated_slot_positive_disparity cal (centers imgL) (centers imgR) 0
            (pt 200 120) (pt 180 120) _ eq_refl eq_refl eq_refl).
  cbn. lia.
Defined.

(** Slot 1 of the demo pair: d = 90 - 95 = -5. *)
Lemma nonpositive_disparity_witness :
  exists result3D,
    result3D_of cal (centers imgL) (centers imgR) = Some result3D /\
    nth_error result3D 1 = Some sentinel.
Proof.
  refine (triangulated_slot_nonpositive_disparity cal (centers imgL) (centers imgR) 1
            (pt 90 100) (pt 95 100) _ eq_refl eq_refl eq_refl).
  cbn. lia.
Defined.

(** Eight left detections and three right ones: three slots triangulated,
    three padded. *)
Lemma result_slots_by_index_witness :
  numDetected eight_left three_right = 3%nat /\
  exists result3D,
    result3D_of cal eight_left three_right = Some result3D /\
    List.length result3D = 6%nat /\
    nth_error result3D 2 = Some (triangulate cal (pt 60 50) (pt 50 50)) /\
    nth_error result3D 3 = Some sentinel /\
    nth_error result3D 5 = Some sentinel.
Proof.
  destruct (result_slots_by_index cal eight_left three_right)
    as (_ & result3D & Hres & Hlen & Hreal & Hpad).
  split; [reflexivity |].
  exists result3D. split; [exact Hres |]. split; [exact Hlen |].
  split; [| split].
  - destruct (Hreal 2%nat) as (ptL & ptR & HL & HR & Hslot); [cbn; lia |].
    rewrite Hslot. cbn in HL, HR. congruence.
  - apply Hpad. cbn. lia.
  - apply Hpad. cbn. lia.
Defined.

Example eight_and_three :
  result3D_of cal eight_left three_right =
    Some [ {| pos_x := 0.25; pos_y := 0; pos_z := 3.125 |};
           sentinel;
           {| pos_x := -1.25; pos_y := -0.875; pos_z := 6.25 |};
           sentinel; sentinel; sentinel ].
Proof. reflexivity. Qed.

(** ** The pipeline and broadcast examples *)

Example demo_pair_run :
  processStereoPair net_ok srv0 imgL imgR =
    ([ CallInitUndistortRectifyMap LeftCam; CallInitUndistortRectifyMap RightCam;
       Sent 1 payload0; Sent 2 payload0 ],
     Returns tt).
Proof. reflexivity. Qed.

(** The message socket 1 receives for the demo pair: two boxes on the
    left, three on the right, so two triangulated slots (the second with
    negative disparity) and four padded ones. *)
Lemma six_positions_witness :
  In (Sent 1 payload0) (trace (processStereoPair net_ok srv0 imgL imgR)) /\
  payload_type payload0 = "3d_positions"%string /\
  List.length (payload_data payload0) = 6%nat /\
  exists tr foundL foundR,
    detect_centers srv0 imgL imgR = (tr, Returns (centers foundL, centers foundR)) /\
    let n := Nat.min (Nat.min (List.length foundL) (List.length foundR)) 6 in
    payload_data payload0 =
      (map (fun lr => triangulate (calib srv0) (fst lr) (snd lr))
           (firstn n (combine (centers foundL) (centers foundR)))
       ++ repeat sentinel (6 - n))%list.
Proof.
  assert (Hin : In (Sent 1 payload0) (trace (processStereoPair net_ok srv0 imgL imgR))).
  { right; right; left; reflexivity. }
  split; [exact Hin |].
  exact (broadcast_result_has_six_positions net_ok srv0 imgL imgR 1%nat payload0 Hin).
Defined.

(** C7, as stated, fails: startup computes no undistort/rectify map, and a
    run that reconstructs two pairs computes each camera's map twice. *)
Lemma maps_recomputed_for_every_pair :
  count (is_initMap LeftCam) (trace (startup cal)) = 0%nat /\
  count (is_initMap RightCam) (trace (startup cal)) = 0%nat /\
  outcome (processStereoPair net_ok srv0 imgL imgR) = Returns tt /\
  count (is_initMap LeftCam) (trace (processStereoPair net_ok srv0 imgL imgR)) = 1%nat /\
  recipients (trace (run net_ok cal two_pairs)) = [1; 2; 1; 2]%nat /\
  count (is_initMap LeftCam) (trace (run net_ok cal two_pairs)) = 2%nat /\
  count (is_initMap RightCam) (trace (run net_ok cal two_pairs)) = 2%nat.
Proof. repeat split; vm_compute; reflexivity. Qed.

(** The demo pair: both grey conversions succeed, both maps are computed
    from the stored rectification, detection goes on with them. *)
Lemma maps_every_pair_witness :
  bgrToGray imgL = Some imgL /\
  bgrToGray imgR = Some imgR /\
  detect_centers srv0 imgL imgR =
    ([CallInitUndistortRectifyMap LeftCam; CallInitUndistortRectifyMap RightCam],
     Returns (centers imgL, centers imgR)).
Proof.
  split; [reflexivity |]. split; [reflexivity |].
  exact (proj1 (proj2 (proj2 (proj2 (proj2 stereoRectify_once_maps_every_pair))))
           srv0 imgL imgR imgL imgR eq_refl eq_refl).
Defined.

(** C8, as stated, fails: sockets 1, 2 and 4 are registered and open,
    [send] throws on socket 2 only, detection succeeds, and socket 4, whose
    [send] would have worked, is sent nothing. *)
Lemma send_failure_starves_later_sockets :
  map fst (clients srv3) = [1; 2; 4]%nat /\
  is_open net_fail2 4 = true /\
  send_throws net_fail2 4 = false /\
  send_throws net_fail2 2 = true /\
  outcome (detect_centers srv3 imgL imgR) = Returns (centers imgL, centers imgR) /\
  recipients (trace (processStereoPair net_fail2 srv3 imgL imgR)) = [1%nat] /\
  recipients (trace (processStereoPair net_ok srv3 imgL imgR)) = [1; 2; 4]%nat.
Proof. repeat split; vm_compute; reflexivity. Qed.

(** The same run, read through the theorem: socket 1 is served, the throw
    on socket 2 is logged, the function returns. *)
Lemma send_failure_ends_broadcast_witness :
  processStereoPair net_fail2 srv3 imgL imgR =
    ([ CallInitUndistortRectifyMap LeftCam; CallInitUndistortRectifyMap RightCam;
       Sent 1 payload0; ConsoleError ],
     Returns tt).
Proof.
  refine (send_failure_ends_broadcast net_fail2 srv3 imgL imgR
            [CallInitUndistortRectifyMap LeftCam; CallInitUndistortRectifyMap RightCam]
            (centers imgL) (centers imgR)
            [(1%nat, "front"%string)] 2%nat "back"%string [(4%nat, "front"%string)]
            eq_refl eq_refl _ eq_refl eq_refl).
  intros c Hc Hopen. destruct Hc as [<- | []]. reflexivity.
Defined.

(** C9, as stated, fails: socket 3 is open and has spoken to the server,
    but it never registered as front or back; the reconstruction of the
    session is sent to sockets 1 and 2 only. *)
Lemma open_unregistered_socket_gets_nothing :
  In (Message 3 "role viewer") session /\
  is_open net_ok 3 = true /\
  send_throws net_ok 3 = false /\
  recipients (trace (run net_ok cal session)) = [1; 2]%nat /\
  filter is_sent (trace (run net_ok cal session)) = [Sent 1 payload0; Sent 2 payload0].
Proof. repeat split; try (left; reflexivity); vm_compute; reflexivity. Qed.

(** The demo pair: detection returns, no [send] throws, both registered
    sockets are served. *)
Lemma registered_open_sockets_witness :
  detect_centers srv0 imgL imgR =
    ([CallInitUndistortRectifyMap LeftCam; CallInitUndistortRectifyMap RightCam],
     Returns (centers imgL, centers imgR)) /\
  processStereoPair net_ok srv0 imgL imgR =
    ([ CallInitUndistortRectifyMap LeftCam; CallInitUndistortRectifyMap RightCam;
       Sent 1 payload0; Sent 2 payload0 ],
     Returns tt).
Proof.
  split; [reflexivity |].
  refine (proj1 (proj2 (proj2
            (completed_reconstruction_reaches_registered_open_sockets
               net_ok srv0 imgL imgR _ (centers imgL) (centers imgR) eq_refl))) _).
  intros c _ _. reflexivity.
Defined.

(** ** The handler examples *)

(** The front camera on socket 1 asks for the role [viewer]: nothing
    happens, and its next frame is handled as it would have been. *)
Lemma unknown_role_witness :
  on_message net_ok 1 (Some "front"%string) "role viewer" srv0 =
    ([], Returns (Some "front"%string, srv0)) /\
  (x <- on_message net_ok 1 (Some "front"%string) "role viewer" srv0 ;;
   on_message net_ok 1 (fst x) "frame L@1000" (snd x)) =
  on_message net_ok 1 (Some "front"%string) "frame L@1000" srv0.
Proof.
  destruct (unknown_role_message_is_ignored net_ok 1%nat (Some "front"%string)
              "role viewer" srv0 (role_msg "viewer") eq_refl eq_refl)
    as [Hsame Hnext]; [discriminate | discriminate |].
  split; [exact Hsame | exact (Hnext "frame L@1000"%string)].
Defined.

(** That next frame lands in the front buffer. *)
Example frame_after_unknown_role_is_buffered_front :
  outcome (x <- on_message net_ok 1 (Some "front"%string) "role viewer" srv0 ;;
           on_message net_ok 1 (fst x) "frame L@1000" (snd x)) =
    Returns (Some "front"%string,
             set_frameBuffers srv0
               {| front := [{| seq := 0; timestamp := 1000; matColor := imgL |}];
                  back := [] |}).
Proof. reflexivity. Qed.

(** A first registration with an unknown role leaves the connection
    without a role: its frames are not buffered. *)
Example frame_without_role_is_ignored :
  (x <- on_message net_ok 3 None "role viewer" srv0 ;;
   on_message net_ok 3 (fst x) "frame L@1000" (snd x)) =
    ([], Returns (None, srv0)).
Proof. reflexivity. Qed.

(* ===================================================================== *)
(** * More runs on the concrete platform *)
(* ===================================================================== *)

(** ** The matcher *)

Lemma waits_for_both_buffers_witness :
  attemptStereoPair {| front := [fr 1000; fr 1010]; back := [] |} =
    ({| front := [fr 1000; fr 1010]; back := [] |}, NoCall).
Proof.
  apply attemptStereoPair_waits_for_both_buffers. right. reflexivity.
Defined.

Lemma handoff_sound_witness :
  attemptStereoPair {| front := [fr 1000; fr 1500]; back := [fr 1300; fr 900; fr 1100] |} =
    ({| front := [fr 1500]; back := [fr 1300; fr 1100] |}, Call (fr 1000) (fr 900)) /\
  [fr 1000; fr 1500] = fr 1000 :: [fr 1500] /\
  (dt_of (fr 1000) (fr 900) <= 200)%Z /\
  exists k,
    first_closest (fr 1000) [fr 1300; fr 900; fr 1100] k (fr 900) /\
    [fr 1300; fr 1100] = remove_at k [fr 1300; fr 900; fr 1100] /\
    3 = List.length [fr 1300; fr 900; fr 1100].
Proof.
  split; [reflexivity |].
  exact (attemptStereoPair_handoff_sound
           {| front := [fr 1000; fr 1500]; back := [fr 1300; fr 900; fr 1100] |}
           {| front := [fr 1500]; back := [fr 1300; fr 1100] |}
           (fr 1000) (fr 900) eq_refl).
Defined.

Lemma no_call_keeps_back_witness :
  attemptStereoPair {| front := [fr 1000; fr 1500]; back := [fr 1300; fr 700] |} =
    ({| front := [fr 1500]; back := [fr 1300; fr 700] |}, NoCall) /\
  [fr 1300; fr 700] = [fr 1300; fr 700] /\
  ({| front := [fr 1500]; back := [fr 1300; fr 700] |} =
   {| front := [fr 1000; fr 1500]; back := [fr 1300; fr 700] |} \/
   exists f, [fr 1000; fr 1500] = f :: [fr 1500] /\ [fr 1300; fr 700] <> [] /\
             forall b, In b [fr 1300; fr 700] -> (200 < dt_of f b)%Z).
Proof.
  split; [reflexivity |].
  exact (attemptStereoPair_no_call_keeps_back
           {| front := [fr 1000; fr 1500]; back := [fr 1300; fr 700] |}
           {| front := [fr 1500]; back := [fr 1300; fr 700] |} eq_refl).
Defined.

(** ** The six slots *)

Lemma one_side_empty_witness :
  result3D_of cal [] three_right = Some (repeat sentinel 6).
Proof.
  apply result3D_of_one_side_empty. left. reflexivity.
Defined.

Example nine_left_detections :
  result3D_of cal (eight_left ++ [pt 300 200])%list (eight_left ++ [pt 1 2])%list =
    result3D_of cal (firstn 6 eight_left) (firstn 6 eight_left).
Proof. reflexivity. Qed.

(** ** Deliveries *)

(** The detector of the fragile platform throws on the empty left image:
    both maps were computed, nothing is sent, one error is logged. *)
Lemma failed_reconstruction_witness :
  @processStereoPair fragile net_ok fragile_srv [] imgR =
    ([ CallInitUndistortRectifyMap LeftCam; CallInitUndistortRectifyMap RightCam;
       ConsoleError ], Returns tt) /\
  recipients (trace (@processStereoPair fragile net_ok fragile_srv [] imgR)) = [].
Proof.
  exact (@failed_reconstruction_sends_nothing fragile net_ok fragile_srv [] imgR eq_refl).
Defined.

Lemma recipients_witness :
  (In 2 (map fst (clients srv0)) /\ readyState net_ok 2 = ws_OPEN) /\
  NoDup (recipients (trace (processStereoPair net_ok srv0 imgL imgR))).
Proof.
  destruct (reconstruction_recipients_open_registered_once net_ok srv0 imgL imgR)
    as [Hin Hnd].
  split.
  - apply Hin. right; left; reflexivity.
  - apply Hnd. cbn. repeat constructor; cbn; intuition discriminate.
Defined.

(** ** The handler *)

Lemma message_kind_witness :
  outcome (on_message net_ok 1 (Some "front") "frame L@1000" srv0) =
    Returns (Some "front", srv1) /\
  Some "front" = Some "front" /\ clients srv1 = clients srv0.
Proof.
  split; [reflexivity |].
  refine (proj1 (message_kind_limits_what_changes net_ok 1 (Some "front")
                   "frame L@1000" srv0 (Some "front") srv1 eq_refl) _).
  intros msg Hmsg. cbn in Hmsg. inversion Hmsg. discriminate.
Defined.

Lemma without_role_witness :
  outcome (on_message net_ok 3 None "frame L@1000" srv0) = Returns (None, srv0) /\
  frameBuffers srv0 = frameBuffers srv0 /\
  recipients (trace (on_message net_ok 3 None "frame L@1000" srv0)) = [].
Proof.
  split; [reflexivity |].
  exact (connection_without_role_cannot_feed_frames net_ok 3 None "frame L@1000"
           srv0 None srv0 eq_refl eq_refl).
Defined.

Lemma bad_input_witness :
  on_message net_ok 1 (Some "front") "{not json" srv0 =
    ([ConsoleError], Returns (Some "front", srv0)) /\
  on_message net_ok 1 (Some "front") "frame bad@1000" srv0 =
    ([ConsoleWarn], Returns (Some "front", srv0)).
Proof.
  split.
  - exact (proj1 (bad_input_is_logged_and_dropped net_ok 1 (Some "front")
                    "{not json" srv0) eq_refl).
  - exact (proj2 (bad_input_is_logged_and_dropped net_ok 1 (Some "front")
                    "frame bad@1000" srv0)
             (frame_msg 1000 "bad") eq_refl eq_refl eq_refl eq_refl).
Defined.

(** Socket 2, registered as back, registers again as front: it is front
    from then on, and still second in the broadcast order. *)
Lemma role_message_witness :
  exists srv',
    on_message net_ok 2 (Some "back") "role front" srv0 =
      ([ConsoleLog], Returns (Some "front", srv')) /\
    map_get 2 (clients srv') = Some "front" /\
    map_get 1 (clients srv') = Some "front" /\
    map fst (clients srv') = [1; 2].
Proof.
  destruct (role_message_registers net_ok 2 (Some "back") "role front" srv0
              (role_msg "front") eq_refl eq_refl (or_introl eq_refl))
    as (srv' & Hrun & Hget & Hother & Hkeep & _ & _).
  exists srv'. split; [exact Hrun |]. split; [exact Hget |]. split.
  - rewrite Hother by discriminate. reflexivity.
  - rewrite Hkeep; [reflexivity |]. right; left; reflexivity.
Defined.

Lemma frame_waits_witness :
  on_message net_ok 1 (Some "front") "frame L@1000" srv0 =
    ([], Returns (Some "front", srv1)) /\
  on_message net_ok 2 (Some "back") "frame R@900" srv0 =
    ([], Returns (Some "back",
                  set_frameBuffers srv0
                    {| front := [];
                       back := [{| seq := 0; timestamp := 900; matColor := imgR |}] |})).
Proof.
  split.
  - exact (proj1 (frame_waits_when_other_buffer_empty net_ok 1 "frame L@1000" srv0
                    (frame_msg 1000 "L") imgL eq_refl eq_refl eq_refl) eq_refl).
  - exact (proj2 (frame_waits_when_other_buffer_empty net_ok 2 "frame R@900" srv0
                    (frame_msg 900 "R") imgR eq_refl eq_refl eq_refl) eq_refl).
Defined.

Lemma one_frame_witness :
  outcome (on_message net_ok 2 (Some "back") "frame R@900" srv1) =
    Returns (Some "back", srv0) /\
  List.length (front (frameBuffers srv1)) + List.length (back (frameBuffers srv1)) = 1 /\
  List.length (front (frameBuffers srv0)) + List.length (back (frameBuffers srv0)) = 0 /\
  (0 <= 1 + 1 /\ 1 <= 0 + 1)%nat.
Proof.
  split; [reflexivity |]. split; [reflexivity |]. split; [reflexivity |].
  exact (one_message_moves_at_most_one_frame net_ok 2 (Some "back") "frame R@900" srv1
           (Some "back") srv0 eq_refl).
Defined.

Lemma back_frame_completes_pair_witness :
  on_message net_ok 2 (Some "back") "frame R@900" srv1 =
    ([ CallInitUndistortRectifyMap LeftCam; CallInitUndistortRectifyMap RightCam;
       Sent 1 payload0; Sent 2 payload0 ],
     Returns (Some "back", srv0)).
Proof.
  refine (back_frame_completes_pair net_ok 2 "frame R@900" srv1 (frame_msg 900 "R") imgR
            {| seq := 0; timestamp := 1000; matColor := imgL |}
            eq_refl eq_refl eq_refl eq_refl _).
  cbn. lia.
Defined.

Lemma one_delivery_each_witness :
  NoDup (recipients (trace (on_message net_ok 2 (Some "back") "frame R@900" srv1))) /\
  (In 1 (map fst (clients srv1)) /\ readyState net_ok 1 = ws_OPEN).
Proof.
  destruct (one_message_one_delivery_each net_ok 2 (Some "back") "frame R@900" srv1)
    as [Hnd Hin].
  - cbn. repeat constructor; cbn; intuition discriminate.
  - split; [exact Hnd |]. apply Hin. left; reflexivity.
Defined.

(** ** The event loop *)

Lemma close_unregisters_witness :
  exists srv',
    on_close 1 srv0 = ([ConsoleLog], Returns srv') /\
    ~ In 1 (map fst (clients srv')) /\
    map_get 1 (clients srv') = None /\
    map_get 2 (clients srv') = Some "back".
Proof.
  destruct (close_unregisters_socket 1 srv0) as (srv' & Hrun & Hgone & Hnone & Hother & _).
  - cbn. repeat constructor; cbn; intuition discriminate.
  - exists srv'. split; [exact Hrun |]. split; [exact Hgone |]. split; [exact Hnone |].
    rewrite Hother by discriminate. reflexivity.
Defined.

(** ** The relay *)

Lemma relay_witness :
  Relay.on_message net_ok [1; 2; 3] 2 "hello" =
    ([Relay.Logged "hello"; Relay.Forwarded 1 "hello"; Relay.Forwarded 3 "hello"],
     Returns tt).
Proof.
  apply (relay_reaches_every_other_open_client net_ok 2 "hello" [1; 2; 3]).
  intros c _ _. reflexivity.
Defined.

Lemma relay_only_others_witness :
  In (Relay.Forwarded 3 "hello") (fst (Relay.on_message net_ok [1; 2; 3] 2 "hello")) /\
  "hello" = "hello" /\ 3 <> 2 /\ In 3 [1; 2; 3] /\ readyState net_ok 3 = ws_OPEN.
Proof.
  assert (Hin : In (Relay.Forwarded 3 "hello")
                   (fst (Relay.on_message net_ok [1; 2; 3] 2 "hello")))
    by (right; right; left; reflexivity).
  split; [exact Hin |].
  exact (relay_forwards_only_to_other_open_clients net_ok 2 "hello" [1; 2; 3] 3 "hello" Hin).
Defined.

Lemma relay_failure_witness :
  Relay.on_message net_fail2 [1; 2; 4] 3 "hello" =
    ([Relay.Logged "hello"; Relay.Forwarded 1 "hello"], Throws).
Proof.
  apply (relay_send_failure_escapes net_fail2 3 "hello" [1] 2 [4]).
  - intros c [<- | []] _. reflexivity.
  - reflexivity.
  - reflexivity.
Defined.

Lemma reachable_registry_witness :
  match outcome (run net_ok cal two_pairs) with
  | Returns (roles, srv) =>
      NoDup (map fst (clients srv)) /\
      forall s r, In (s, r) (clients srv) -> valid_role r /\ roles s = Some r
  | Throws => False
  end.
Proof.
  destruct (outcome (run net_ok cal two_pairs)) as [[roles srv] |] eqn:E.
  - exact (reachable_registry_well_formed net_ok cal two_pairs roles srv E).
  - vm_compute in E. discriminate E.
Defined.

Example registry_after_two_pairs :
  match outcome (run net_ok cal two_pairs) with
  | Returns (roles, srv) =>
      clients srv = [(1, "front"); (2, "back")] /\
      roles 1 = Some "front" /\ roles 2 = Some "back" /\ roles 3 = None /\
      frameBuffers srv = {| front := []; back := [] |}
  | Throws => False
  end.
Proof. vm_compute. repeat split. Qed.


Example decoded_frame_run :
  on_message net_fail2 2 (Some "back") "frame R@900"
    (set_frameBuffers srv3 (frameBuffers srv1)) =
    ([ CallInitUndistortRectifyMap LeftCam; CallInitUndistortRectifyMap RightCam;
       Sent 1 payload0; ConsoleError ],
     Returns (Some "back", srv3)).
Proof. reflexivity. Qed.
